(** * Reptar (yarn): the watch dispatcher, the plugin resolver and the test fixtures

    A shallow embedding of
    - [bin/watch.js]: the dispatcher that wires two chokidar watch sessions
      to the actions of a long-lived site object;
    - [test/fixtures/index.js]: [mirrorPathsToContent], the npm branch of
      [mockSimpleSite] and [filterOnlyFiles];
    - the package resolver [getYarnPackageNames] of [lib/json.js], of which
      only the unit test is available.

    JavaScript runs every callback to completion before the next one starts.
    The dispatcher is therefore a transition system: the module body builds
    the first state in one go, and afterwards the environment feeds it
    stimuli one at a time (a watcher emitting an event, a promise of the site
    being settled). Closures of the source are first-order here: one
    constructor per function literal, and an interpreter that runs its body. *)

From Stdlib Require Import String Ascii List Bool Arith Lia.
From stdpp Require Import base strings gmap.
Import ListNotations.

Local Open Scope string_scope.
Local Open Scope list_scope.

(** ** Strings as the JavaScript code uses them *)

Module Str.

(** [s.startsWith(p)] *)
Fixpoint startsWith (p s : string) : bool :=
  match p, s with
  | EmptyString, _ => true
  | String a p', String b s' => Ascii.eqb a b && startsWith p' s'
  | String _ _, EmptyString => false
  end.

(** [s.includes(needle)]: some suffix of [s] starts with [needle]. *)
Fixpoint includes (needle s : string) : bool :=
  startsWith needle s ||
  match s with
  | EmptyString => false
  | String _ s' => includes needle s'
  end.

Definition tab : string := String (ascii_of_nat 9) EmptyString.

End Str.

(** ** bin/watch.js *)

Module Watch.

(** The two chokidar instances of the module: [watcher] and [themeWatcher]. *)
Inductive session := Source | Theme.

Definition session_eqb (a b : session) : bool :=
  match a, b with
  | Source, Source | Theme, Theme => true
  | _, _ => false
  end.

(** [require('../lib/config').path] and [yarn.theme.config.path.templates]. *)
Record config := Config {
  path_source : string;
  path_plugins : string;
  path_themes : string;
  path_destination : string;
  path_templates : string
}.

Record js_error := JsError { stack : string }.

Inductive outcome := Fulfilled | Rejected (e : js_error).

(** The methods of the site object [yarn] that return a promise. *)
Inductive site_action :=
| readFiles
| fileChanged (path : string)
| fileAdded (path : string)
| fileRemoved (path : string)
| readTheme
| build.

(** The function literals passed to [on]. *)
Inductive callback :=
| on_source_ready     (* watch.js 38-63 *)
| on_source_change    (* watch.js 40-46 *)
| on_source_add       (* watch.js 48-54 *)
| on_source_unlink    (* watch.js 56-62 *)
| on_theme_ready      (* watch.js 70-80 *)
| on_theme_change.    (* watch.js 72-79 *)

(** What is attached to a promise of the site. *)
Inductive reaction :=
| catch_log_rethrow   (* .catch(function(e) { console.log(e.stack); throw e; }) *)
| then_log_done       (* .then(function() { logger.info('\tdone!'); }) *)
| then_build          (* .then(function() { return yarn.build(); }) *)
| unobserved.         (* the promise of [yarn.build()] returned from a then *)

Definition promise := nat.

(** Everything the dispatcher does to the outside, in the order it does it.
    [Settled] records the stimulus that ran a reaction, so that the order of
    settlements and calls can be read off one list. *)
Inductive effect :=
| Serve
| NewYarn
| ConfigureTemplate (paths : list string) (cacheTemplates : bool)
| Call (a : site_action) (p : promise)
| Watch (s : session) (paths ignored : list string)
| On (s : session) (name : string) (cb : callback)
| LoggerInfo (msg : string)
| ConsoleLog (msg : string)
| Settled (p : promise) (o : outcome)
| UnhandledRejection (p : promise) (e : js_error).

Record listener := Listener {
  l_session : session;
  l_event : string;
  l_callback : callback
}.

Record watch_session := WatchSession {
  w_role : session;
  w_paths : list string;
  w_ignored : list string
}.

Record state := State {
  watchers : list watch_session;
  listeners : list listener;
  pending : list (promise * reaction);
  next_promise : promise;
  trace : list effect
}.

Definition empty_state : state := State [] [] [] 0 [].

(** *** A state monad for the bodies of the callbacks *)

Definition M (A : Type) : Type := state -> A * state.

Definition ret {A} (a : A) : M A := fun st => (a, st).

Definition bind {A B} (m : M A) (f : A -> M B) : M B :=
  fun st => let (a, st') := m st in f a st'.

Definition exec {A} (m : M A) (st : state) : state := snd (m st).

Notation "m >>= f" := (bind m f) (at level 58, left associativity).
Notation "m >> k" := (bind m (fun _ => k)) (at level 58, left associativity).

Definition tell (e : effect) : M unit := fun st =>
  (tt, State (watchers st) (listeners st) (pending st) (next_promise st)
             (trace st ++ [e])).

(** [yarn.<action>(...)]: the call is observed and a fresh promise returned. *)
Definition yarn (a : site_action) : M promise := fun st =>
  (next_promise st,
   State (watchers st) (listeners st) (pending st) (S (next_promise st))
         (trace st ++ [Call a (next_promise st)])).

(** [p.then(f)] and [p.catch(f)]. *)
Definition react (r : reaction) (p : promise) : M unit := fun st =>
  (tt, State (watchers st) (listeners st) (pending st ++ [(p, r)])
             (next_promise st) (trace st)).

(** [chokidar.watch(paths, {ignored: ignored})] *)
Definition chokidar_watch (s : session) (paths ignored : list string) : M unit :=
  fun st =>
  (tt, State (watchers st ++ [WatchSession s paths ignored]) (listeners st)
             (pending st) (next_promise st)
             (trace st ++ [Watch s paths ignored])).

(** [emitter.on(name, cb)]: the listener goes to the end of the list. *)
Definition on (s : session) (name : string) (cb : callback) : M unit :=
  fun st =>
  (tt, State (watchers st) (listeners st ++ [Listener s name cb])
             (pending st) (next_promise st)
             (trace st ++ [On s name cb])).

Definition logger_info (msg : string) : M unit := tell (LoggerInfo msg).
Definition console_log (msg : string) : M unit := tell (ConsoleLog msg).

(** *** The callbacks *)

Definition run_callback (cb : callback) (path : string) : M unit :=
  match cb with
  | on_source_ready =>
      on Source "change" on_source_change >>
      on Source "add" on_source_add >>
      on Source "unlink" on_source_unlink
  | on_source_change =>
      logger_info ("File changed at: " +:+ path) >>
      logger_info "Rebuilding..." >>
      yarn (fileChanged path) >>= react then_log_done
  | on_source_add =>
      logger_info ("File added at: " +:+ path) >>
      logger_info "Rebuilding..." >>
      yarn (fileAdded path) >>= react then_log_done
  | on_source_unlink =>
      logger_info ("File removed at: " +:+ path) >>
      logger_info "Rebuilding..." >>
      yarn (fileRemoved path) >>= react then_log_done
  | on_theme_ready =>
      on Theme "change" on_theme_change
  | on_theme_change =>
      logger_info ("Theme file changed at: " +:+ path) >>
      logger_info "Rebuilding..." >>
      yarn readTheme >>= react then_build
  end.

(** The reaction attached to promise [p], run when [p] settles with [o].
    A rejection nobody handles ends as an unhandled rejection of the
    promise derived by [then] or [catch]. *)
Definition run_reaction (r : reaction) (p : promise) (o : outcome) : M unit :=
  match r, o with
  | catch_log_rethrow, Fulfilled => ret tt
  | catch_log_rethrow, Rejected e =>
      console_log (stack e) >> tell (UnhandledRejection p e)
  | then_log_done, Fulfilled => logger_info (Str.tab +:+ "done!")
  | then_build, Fulfilled => yarn build >>= react unobserved
  | unobserved, Fulfilled => ret tt
  | _, Rejected e => tell (UnhandledRejection p e)
  end.

(** *** The module body *)

Definition module_exports (cfg : config) : M unit :=
  tell Serve >>
  tell NewYarn >>
  tell (ConfigureTemplate [path_templates cfg] true) >>
  (yarn readFiles >>= react catch_log_rethrow) >>
  chokidar_watch Source [path_source cfg]
    [path_plugins cfg; path_themes cfg; path_destination cfg] >>
  on Source "ready" on_source_ready >>
  chokidar_watch Theme [path_themes cfg] [] >>
  on Theme "ready" on_theme_ready.

Definition startup (cfg : config) : state := exec (module_exports cfg) empty_state.

(** *** The event emitter *)

(** The listener table of the emitter [s], in registration order. *)
Definition of_session (s : session) (ls : list listener) : list listener :=
  List.filter (fun l => session_eqb (l_session l) s) ls.

(** The callbacks registered on [s] for [name], in registration order. *)
Definition callbacks (s : session) (name : string) (ls : list listener)
  : list callback :=
  map l_callback
      (List.filter (fun l => String.eqb (l_event l) name) (of_session s ls)).

Fixpoint call_all (cbs : list callback) (path : string) : M unit :=
  match cbs with
  | [] => ret tt
  | cb :: cbs' => run_callback cb path >> call_all cbs' path
  end.

(** [emitter.emit(name, path)]: the listeners present when the emit starts
    are called in order. *)
Definition emit (s : session) (name path : string) : M unit := fun st =>
  call_all (callbacks s name (listeners st)) path st.

(** *** Promises *)

Fixpoint take_pending (p : promise) (l : list (promise * reaction))
  : option (reaction * list (promise * reaction)) :=
  match l with
  | [] => None
  | (q, r) :: l' =>
      if Nat.eqb p q then Some (r, l')
      else match take_pending p l' with
           | Some (r', rest) => Some (r', (q, r) :: rest)
           | None => None
           end
  end.

(** Settling a promise runs its reaction once; a promise that is not
    pending (unknown, or settled before) changes nothing. *)
Definition settle (p : promise) (o : outcome) : M unit := fun st =>
  match take_pending p (pending st) with
  | None => (tt, st)
  | Some (r, rest) =>
      (tell (Settled p o) >> run_reaction r p o)
        (State (watchers st) (listeners st) rest (next_promise st) (trace st))
  end.

(** *** File events and the ignore rule of a watch session *)

Inductive kind := Added | Changed | Removed.

(** The chokidar event that carries a file event of each kind. *)
Definition event_name (k : kind) : string :=
  match k with
  | Added => "add"
  | Changed => "change"
  | Removed => "unlink"
  end.

Record FileEvent := MkFileEvent {
  fe_kind : kind;
  fe_path : string;
  fe_root : session
}.

(** Modelled from the spec: the containment test of the watch session.
    The module only hands the three ignored roots to [chokidar.watch]; the
    matching itself is chokidar's and is not among the sources. The spec
    asks for path containment: the path is equal to the root or nested
    under it, at a path-separator boundary. Paths are therefore compared
    segment by segment, after the separators (also a trailing or a doubled
    one) and the segments [.] and [..] are resolved, as for the same
    directory written in another way. *)

(** Modelled from the spec: the segments of a path between its separators,
    the empty ones left out; [cur] is the segment being read. *)
Fixpoint segments_from (cur path : string) : list string :=
  match path with
  | EmptyString => if String.eqb cur "" then [] else [cur]
  | String c rest =>
      if Ascii.eqb c "/"
      then if String.eqb cur "" then segments_from "" rest
           else cur :: segments_from "" rest
      else segments_from (cur +:+ String c EmptyString) rest
  end.

Definition segments (path : string) : list string := segments_from "" path.

Definition is_absolute (path : string) : bool := Str.startsWith "/" path.

(** Modelled from the spec: one segment resolved against the directories
    kept so far, innermost first. [.] stays where it is; [..] leaves the
    innermost directory, and the root of an absolute path has none to
    leave. *)
Definition resolve_segment (absolute : bool) (kept : list string) (seg : string)
  : list string :=
  if String.eqb seg "." then kept
  else if String.eqb seg ".." then
    match kept with
    | [] => if absolute then [] else [seg]
    | top :: outer => if String.eqb top ".." then seg :: kept else outer
    end
  else seg :: kept.

(** Modelled from the spec: the directories of a path from the outermost
    to the innermost, resolved. *)
Definition resolved (path : string) : list string :=
  rev (fold_left (resolve_segment (is_absolute path)) (segments path) []).

Fixpoint begins_with (root path : list string) : bool :=
  match root, path with
  | [], _ => true
  | r :: root', p :: path' => String.eqb r p && begins_with root' path'
  | _ :: _, [] => false
  end.

(** Modelled from the spec: [path] is [root] or lies under it. *)
Definition nested_under (root path : string) : bool :=
  Bool.eqb (is_absolute root) (is_absolute path) &&
  begins_with (resolved root) (resolved path).

(** Modelled from the spec: a path is ignored when it is equal to, or
    nested under, any ignored root (chokidar's [ignored] option). *)
Definition is_ignored (roots : list string) (path : string) : bool :=
  existsb (fun r => nested_under r path) roots.

(** The [ignored] option the session for [s] was created with. *)
Definition ignored_roots (s : session) (ws : list watch_session) : list string :=
  match List.find (fun w => session_eqb (w_role w) s) ws with
  | Some w => w_ignored w
  | None => []
  end.

(** A filesystem mutation seen by the watch session of [fe_root]: it is
    surfaced to the listeners only when its path is not ignored. *)
Definition notify (fe : FileEvent) : M unit := fun st =>
  if is_ignored (ignored_roots (fe_root fe) (watchers st)) (fe_path fe)
  then (tt, st)
  else emit (fe_root fe) (event_name (fe_kind fe)) (fe_path fe) st.

(** *** The dispatcher as a transition system *)

Inductive stimulus :=
| Emit (s : session) (name path : string)   (* a watcher emits to its listeners *)
| Notify (fe : FileEvent)                   (* a mutation under a watched root *)
| Settle (p : promise) (o : outcome).       (* the site settles a promise *)

Definition step (st : state) (ev : stimulus) : state :=
  match ev with
  | Emit s name path => exec (emit s name path) st
  | Notify fe => exec (notify fe) st
  | Settle p o => exec (settle p o) st
  end.

Definition run (st : state) (evs : list stimulus) : state :=
  fold_left step evs st.

(** *** Observations on traces and stimuli *)

(** The site actions invoked, in order. *)
Fixpoint site_calls (tr : list effect) : list site_action :=
  match tr with
  | [] => []
  | Call a _ :: tr' => a :: site_calls tr'
  | _ :: tr' => site_calls tr'
  end.

Definition is_ready (s : session) (ev : stimulus) : bool :=
  match ev with
  | Emit s' name _ => session_eqb s' s && String.eqb name "ready"
  | _ => false
  end.

(** How many times the session [s] has signalled [ready]. *)
Definition ready_count (s : session) (evs : list stimulus) : nat :=
  length (List.filter (is_ready s) evs).

(** The action of the site that belongs to a kind of file event. *)
Definition action_of (k : kind) (path : string) : site_action :=
  match k with
  | Added => fileAdded path
  | Changed => fileChanged path
  | Removed => fileRemoved path
  end.

Definition kind_label (k : kind) : string :=
  match k with
  | Added => "File added at: "
  | Changed => "File changed at: "
  | Removed => "File removed at: "
  end.

Definition ready_callback (s : session) : callback :=
  match s with
  | Source => on_source_ready
  | Theme => on_theme_ready
  end.

(** *** Summaries of the callbacks, and the invariant of the dispatcher *)

(** The per-event listeners of a session. *)
Definition handlers (s : session) : list listener :=
  match s with
  | Source => [Listener Source "change" on_source_change;
               Listener Source "add" on_source_add;
               Listener Source "unlink" on_source_unlink]
  | Theme => [Listener Theme "change" on_theme_change]
  end.

(** The listeners a callback registers. *)
Definition registers (cb : callback) : list listener :=
  match cb with
  | on_source_ready => handlers Source
  | on_theme_ready => handlers Theme
  | _ => []
  end.

(** The reactions a callback leaves pending, [p] being the next promise. *)
Definition awaits (cb : callback) (p : promise) : list (promise * reaction) :=
  match cb with
  | on_source_change | on_source_add | on_source_unlink => [(p, then_log_done)]
  | on_theme_change => [(p, then_build)]
  | on_source_ready | on_theme_ready => []
  end.

(** The effects of a callback, [p] being the next promise. *)
Definition effects (cb : callback) (path : string) (p : promise) : list effect :=
  match cb with
  | on_source_ready => [On Source "change" on_source_change;
                        On Source "add" on_source_add;
                        On Source "unlink" on_source_unlink]
  | on_source_change => [LoggerInfo ("File changed at: " +:+ path);
                         LoggerInfo "Rebuilding..."; Call (fileChanged path) p]
  | on_source_add => [LoggerInfo ("File added at: " +:+ path);
                      LoggerInfo "Rebuilding..."; Call (fileAdded path) p]
  | on_source_unlink => [LoggerInfo ("File removed at: " +:+ path);
                         LoggerInfo "Rebuilding..."; Call (fileRemoved path) p]
  | on_theme_ready => [On Theme "change" on_theme_change]
  | on_theme_change => [LoggerInfo ("Theme file changed at: " +:+ path);
                        LoggerInfo "Rebuilding..."; Call readTheme p]
  end.

(** The callback that handles a file event of each kind on the source
    session. *)
Definition handler_of (k : kind) : callback :=
  match k with
  | Added => on_source_add
  | Changed => on_source_change
  | Removed => on_source_unlink
  end.

Definition ready_listener (s : session) : listener :=
  Listener s "ready" (ready_callback s).

(** The table of session [s] once it has signalled [ready] [n] times. *)
Definition table (s : session) (n : nat) : list listener :=
  ready_listener s :: concat (repeat (handlers s) n).

(** Promise [p] is pending with reaction [r]. *)
Definition awaiting (p : promise) (r : reaction) (st : state) : Prop :=
  exists rest, take_pending p (pending st) = Some (r, rest).

(** Every call of [build] in the trace comes right after the fulfilment of
    a promise that an earlier call of [readTheme] returned. *)
Definition sequenced (tr : list effect) : Prop :=
  forall tr1 pb tr2,
    tr = tr1 ++ Call build pb :: tr2 ->
    exists tr0 pt,
      tr1 = tr0 ++ [Settled pt Fulfilled] /\ In (Call readTheme pt) tr0.

Record Inv (st : state) : Prop := MkInv {
  inv_fresh : forall p r, In (p, r) (pending st) -> p < next_promise st;
  inv_reload : forall p, In (p, then_build) (pending st) ->
                         In (Call readTheme p) (trace st);
  inv_sequenced : sequenced (trace st)
}.

(** The site actions a callback invokes. *)
Definition calls_of (cb : callback) (path : string) : list site_action :=
  match cb with
  | on_source_change => [fileChanged path]
  | on_source_add => [fileAdded path]
  | on_source_unlink => [fileRemoved path]
  | on_theme_change => [readTheme]
  | on_source_ready | on_theme_ready => []
  end.

Definition is_readFiles (a : site_action) : bool :=
  match a with readFiles => true | _ => false end.

Definition is_readTheme (a : site_action) : bool :=
  match a with readTheme => true | _ => false end.

Definition is_build (a : site_action) : bool :=
  match a with build => true | _ => false end.

(** How often the trace calls an action that satisfies [f]. *)
Definition count_calls (f : site_action -> bool) (tr : list effect) : nat :=
  length (List.filter f (site_calls tr)).

Definition is_then_build (pr : promise * reaction) : bool :=
  match snd pr with then_build => true | _ => false end.

(** How many theme reloads are still pending. *)
Definition pending_reloads (pd : list (promise * reaction)) : nat :=
  length (List.filter is_then_build pd).

(** Builds made and reloads pending never exceed the reloads started. *)
Definition builds_within_reloads_at (st : state) : Prop :=
  count_calls is_build (trace st) + pending_reloads (pending st) <=
  count_calls is_readTheme (trace st).

(** A configuration and a failure for the examples. *)
Definition cfg0 : config :=
  Config "/proj/src" "/proj/src/_plugins" "/proj/src/theme" "/proj/src/_site"
         "/proj/src/theme/templates".

Definition enoent : js_error := JsError "Error: ENOENT".

End Watch.

(** ** lib/json.js *)

Module Json.

(** The two dependency lists of a manifest, name to version; either may be
    absent. *)
Record manifest := Manifest {
  dependencies : option (gmap string string);
  devDependencies : option (gmap string string)
}.

(** The names of one dependency list; an absent list has none. *)
Definition names (l : option (gmap string string)) : gset string :=
  match l with
  | Some m => dom m
  | None => ∅
  end.

(** Modelled from the spec: the naming convention of plugin packages, the
    prefix followed by a non-empty suffix. [lib/json.js] is not among the
    sources. *)
Definition is_plugin_name (prefix name : string) : bool :=
  Str.startsWith prefix name && Nat.ltb (String.length prefix) (String.length name).

(** Modelled from the spec: the resolver of [lib/json.js], of which only the
    unit test is available. The result is the set of the names of both
    dependency lists that follow the naming convention. *)
Definition resolvePlugins (prefix : string) (m : manifest) : gset string :=
  filter (λ n, is_plugin_name prefix n = true)
         (names (dependencies m) ∪ names (devDependencies m)).

(** Modelled from the spec: the resolver at the prefix of the project. *)
Definition getYarnPackageNames (m : manifest) : gset string :=
  resolvePlugins "yarn-" m.

(** The dependency lists of the example. *)
Definition example_manifest : manifest :=
  Manifest
    (Some {[ "yarn-excerpt" := "*"; "lodash" := "*" ]})
    (Some {[ "yarn-html-minifier" := "*"; "mocha" := "*";
             "yarn-scaffold" := "*" ]}).

End Json.

(** ** test/fixtures/index.js *)

Module Fixtures.

(** Objects used as dictionaries are finite maps from property names; the
    names here are file paths and option names. An options object maps
    property names to key-mapping functions. *)
Abbreviation options := (gmap string (string → string)).

Section WithFileSystem.

(** The files on disk, path to content. *)
Variable disk : gmap string string.

(** [fs.readFileSync(p, 'utf8')]; [None] when it throws. *)
Definition readFileSync (p : string) : option string := disk !! p.

(** The function given to [reduce] in [mirrorPathsToContent]; a read that
    throws ends the whole reduction. The assignment is an insertion into the
    map, which is what an object does for every key but [__proto__]: on an
    object written as a literal that key reaches the setter of the prototype
    and no property is created. The paths that reach this function as keys
    here are absolute or begin with a directory name; a statement about
    arbitrary keys says that it leaves [__proto__] out. *)
Definition mirror_entry (mapKey : string → string)
    (result : option (gmap string string)) (fullPath : string)
  : option (gmap string string) :=
  r ← result;
  content ← readFileSync fullPath;
  Some (<[mapKey fullPath := content]> r).

(** [mirrorPathsToContent(paths, options)]; [None] when a read throws. *)
Definition mirrorPathsToContent (paths : list string) (opts : options)
  : option (gmap string string) :=
  let mapKey := default (λ x, x) (opts !! "mapKey") in
  foldl (mirror_entry mapKey) (Some ∅) paths.

End WithFileSystem.

Definition node_modules : string := "node_modules".

(** A string stands for the UTF-8 bytes of the JavaScript string. The line
    terminators, which [.] does not match: line feed, carriage return,
    U+2028 and U+2029, the last two of three bytes each. *)
Definition line_terminator_at (s : string) : bool :=
  Str.startsWith (String (ascii_of_nat 10) EmptyString) s ||
  Str.startsWith (String (ascii_of_nat 13) EmptyString) s ||
  Str.startsWith (String (ascii_of_nat 226) (String (ascii_of_nat 128)
                   (String (ascii_of_nat 168) EmptyString))) s ||
  Str.startsWith (String (ascii_of_nat 226) (String (ascii_of_nat 128)
                   (String (ascii_of_nat 169) EmptyString))) s.

(** No line terminator begins anywhere in [s]. *)
Fixpoint single_line (s : string) : bool :=
  match s with
  | EmptyString => true
  | String _ s' => negb (line_terminator_at s) && single_line s'
  end.

(** The number of bytes of the character whose first byte is [c]. *)
Definition char_width (c : ascii) : nat :=
  let n := nat_of_ascii c in
  if Nat.ltb n 192 then 1
  else if Nat.ltb n 224 then 2
  else if Nat.ltb n 240 then 3
  else 4.

Fixpoint drop_chars (n : nat) (s : string) : string :=
  match n, s with
  | S n', String _ s' => drop_chars n' s'
  | _, _ => s
  end.

(** The pattern of the npm branch, a greedy group of any characters but
    line terminators followed by [node_modules], matched from the first
    byte of a character of [s]: what follows the match. The group is greedy,
    so the last reachable occurrence wins. The group is walked byte by byte:
    of a character of several bytes only the first can begin a line
    terminator, and none can begin [node_modules], so the walk passes a
    character that is no terminator as a whole and stops in front of one
    that is. *)
Fixpoint match_here (s : string) : option string :=
  let short :=
    if Str.startsWith node_modules s
    then Some (drop_chars (String.length node_modules) s) else None in
  match s with
  | EmptyString => short
  | String _ s' =>
      if line_terminator_at s then short
      else match match_here s' with
           | Some rest => Some rest
           | None => short
           end
  end.

(** The replacement, with [inside] bytes of the current character still to
    be copied: a match is tried where a character begins, and where none is
    found the whole character is copied, all three bytes of U+2028 or U+2029
    too. *)
Fixpoint replace_match (inside : nat) (s : string) : string :=
  match s with
  | EmptyString => EmptyString
  | String c s' =>
      match inside with
      | S inside' => String c (replace_match inside' s')
      | O =>
          match match_here s with
          | Some rest => node_modules +:+ rest
          | None => String c (replace_match (char_width c - 1) s')
          end
      end
  end.

(** [currentPath.replace(pattern, 'node_modules')]: the leftmost match is
    replaced. *)
Definition node_modules_key (currentPath : string) : string :=
  replace_match 0 currentPath.

(** The options object of the npm branch of [mockSimpleSite]
    (fixtures/index.js 107-114): the function sits under [msapKey]. *)
Definition npm_options : options := {[ "msapKey" := node_modules_key ]}.

(** [s.replace(pattern, replacement)] for a string pattern and a replacement
    without [$]: the first occurrence is replaced. *)
Fixpoint replace_first (pattern replacement s : string) : string :=
  if Str.startsWith pattern s
  then replacement +:+ drop_chars (String.length pattern) s
  else match s with
       | EmptyString => EmptyString
       | String c s' => String c (replace_first pattern replacement s')
       end.

Section MockSimpleSite.

Variable disk : gmap string string.

(** [__dirname] of the fixtures, absolute and without a trailing slash, and
    the root of the project, two levels up. *)
Variables dirname yarnRoot : string.

(** What [getAllFilePaths] resolves to for [simple] and for [themes/one],
    and what [yarnNpmFilePaths()] resolves to. *)
Variables filePaths themePaths npmPaths : list string.

(** [coreYarnFiles()] *)
Definition coreYarnFiles : option (gmap string string) :=
  mirrorPathsToContent disk
    (map (λ p, yarnRoot +:+ "/" +:+ p)
         ["lib/config/defaults.yml"; ".babelrc"; "package.json"])
    ∅.

(** [npmMocks] of [mockSimpleSite] (fixtures/index.js 106-114). *)
Definition npmMocks : option (gmap string string) :=
  mirrorPathsToContent disk npmPaths npm_options.

(** [mockSimpleSite()]: the object [allMocks] it puts together (lines
    116-121) and returns. In the spread the later objects win, so they stand
    to the left of the union. [None] is a read that threw before the object
    was put together. The call [mockFs(allMocks)] of line 123 belongs to the
    mock-fs package and is not part of this definition: it mounts the object
    and leaves it as it is, so [Some] is the object that is returned when
    that call does not throw. *)
Definition mockSimpleSite : option (gmap string string) :=
  mocks ← mirrorPathsToContent disk filePaths
             {[ "mapKey" := λ currentPath,
                  replace_first (dirname +:+ "/") "" currentPath ]};
  themeOne ← mirrorPathsToContent disk themePaths
             {[ "mapKey" := λ currentPath,
                  replace_first (dirname +:+ "/themes/one")
                                "simple/_themes/one" currentPath ]};
  npm ← npmMocks;
  core ← coreYarnFiles;
  Some (npm ∪ (core ∪ (themeOne ∪ mocks))).

End MockSimpleSite.

(** [filePath.match(/\.(html)/)] is truthy. *)
Definition matches_html (filePath : string) : bool :=
  Str.includes ".html" filePath.

(** [filterOnlyFiles(files)]: lodash's [reduce] over the entries. *)
Definition filterOnlyFiles (files : gmap string string) : gmap string string :=
  map_fold (λ filePath fileContent result,
              if matches_html filePath
              then <[filePath := fileContent]> result
              else result)
           ∅ files.

(** An item of the stream of [fs.walk]: its path, and [stats.isFile()]. *)
Record walk_item := WalkItem {
  item_path : string;
  item_isFile : bool
}.

(** The [data] handler of [getAllFilePaths]: the path of a file is pushed. *)
Definition on_data (filePaths : list string) (item : walk_item) : list string :=
  if item_isFile item then filePaths ++ [item_path item] else filePaths.

(** [getAllFilePaths(directory)], [items] being what the walk of the
    directory delivers before it ends: the array the promise resolves to. *)
Definition getAllFilePaths (items : list walk_item) : list string :=
  foldl on_data [] items.

(** The paths of [coreYarnFiles()]. *)
Definition core_paths (yarnRoot : string) : list string :=
  map (λ p, yarnRoot +:+ "/" +:+ p)
      ["lib/config/defaults.yml"; ".babelrc"; "package.json"].

(** [simpleOneOutputDir] of [getSimpleOneOutput]: [path.join] keeps the
    trailing slash. *)
Definition simpleOneOutputDir (dirname : string) : string :=
  dirname +:+ "/output/simple-one/".

(** [getSimpleOneOutput()], [filePaths] being what [getAllFilePaths]
    resolves to for [simpleOneOutputDir]. *)
Definition getSimpleOneOutput (disk : gmap string string) (dirname : string)
    (filePaths : list string) : option (gmap string string) :=
  mirrorPathsToContent disk filePaths
    {[ "mapKey" := λ currentPath,
         replace_first (simpleOneOutputDir dirname) "" currentPath ]}.

(** The key mapping [mirrorPathsToContent] uses for an options object. *)
Definition key_mapping (opts : options) : string → string :=
  default (λ x, x) (opts !! "mapKey").

(** A project on disk for the examples: the fixtures directory, the root of
    the project, and one file of each kind that the fixtures mirror. *)
Definition fixtures_dir : string := "/repo/test/fixtures".

Definition project_root : string := "/repo".

Definition site_disk : gmap string string :=
  {[ "/repo/test/fixtures/simple/index.md" := "# Hello";
     "/repo/test/fixtures/themes/one/layout.html" := "<html>";
     "/repo/node_modules/yarn-excerpt/index.js" := "module.exports = 1;";
     "/repo/lib/config/defaults.yml" := "path: {}";
     "/repo/.babelrc" := "{}";
     "/repo/package.json" := "{}";
     "/repo/test/fixtures/output/simple-one/index.html" := "<h1>Hello</h1>" ]}.

Definition site_files : list string := ["/repo/test/fixtures/simple/index.md"].

Definition theme_files : list string :=
  ["/repo/test/fixtures/themes/one/layout.html"].

Definition npm_files : list string := ["/repo/node_modules/yarn-excerpt/index.js"].

Definition output_files : list string :=
  ["/repo/test/fixtures/output/simple-one/index.html"].

(** An options object whose key mapping sends every path to one key. *)
Definition one_key : options := {[ "mapKey" := λ _, "all" ]}.

(** A disk with one file of an npm module, for the examples. *)
Definition npm_file : string := "/repo/node_modules/yarn-excerpt/index.js".

Definition example_disk : gmap string string :=
  {[ npm_file := "module.exports = 1;" ]}.

End Fixtures.

(** * Facts about strings *)

Lemma startsWith_spec p s :
  Str.startsWith p s = true <-> exists rest, s = p +:+ rest.
Proof.
  revert s. induction p as [|a p IH]; intros s; cbn.
  - split; [intros _; now exists s | reflexivity].
  - destruct s as [|b s].
    + split; [discriminate | intros [rest [=]]].
    + rewrite andb_true_iff, Ascii.eqb_eq, IH. split.
      * intros [-> [rest ->]]. now exists rest.
      * intros [rest [= -> ->]]. eauto.
Qed.

Lemma startsWith_length p s :
  Str.startsWith p s = true -> String.length p <= String.length s.
Proof.
  intros [rest ->]%startsWith_spec.
  induction p as [|a p IH]; [cbn; lia|].
  change (String a p +:+ rest) with (String a (p +:+ rest)).
  cbn [String.length]. lia.
Qed.

Lemma includes_spec needle s :
  Str.includes needle s = true <-> exists a b, s = a +:+ needle +:+ b.
Proof.
  induction s as [|c s IH].
  - cbn. rewrite orb_false_r, startsWith_spec. split.
    + intros [rest E]. now exists EmptyString, rest.
    + intros [[|? a] [b E]]; [now exists b | discriminate].
  - cbn [Str.includes]. rewrite orb_true_iff, startsWith_spec, IH. split.
    + intros [[rest E]|[a [b E]]].
      * now exists EmptyString, rest.
      * exists (String c a), b. cbn. now rewrite E.
    + intros [[|c' a] [b E]].
      * left. now exists b.
      * right. injection E as -> E. now exists a, b.
Qed.

(** * Facts about path containment *)

Section Containment.

Import Watch.

Lemma string_app_cons a s t : String a s +:+ t = String a (s +:+ t).
Proof. reflexivity. Qed.

Lemma string_app_nil_r s : s +:+ "" = s.
Proof. induction s as [|a s IH]; [reflexivity|]. now rewrite string_app_cons, IH. Qed.

Lemma string_app_assoc a b c : (a +:+ b) +:+ c = a +:+ (b +:+ c).
Proof.
  induction a as [|x a IH]; [reflexivity|]. now rewrite !string_app_cons, IH.
Qed.

Lemma begins_with_spec root path :
  begins_with root path = true <-> exists inner, path = root ++ inner.
Proof.
  revert path. induction root as [|r root IH]; intros path; cbn [begins_with].
  - split; [intros _; now exists path | reflexivity].
  - destruct path as [|p path].
    + split; [discriminate | intros [inner [=]]].
    + rewrite andb_true_iff, String.eqb_eq, IH. split.
      * intros [-> [inner ->]]. now exists inner.
      * intros [inner [= -> ->]]. eauto.
Qed.

(** A separator ends the segment being read. *)
Lemma segments_from_sep cur a b :
  segments_from cur (a +:+ String "/" b) = segments_from cur a ++ segments b.
Proof.
  revert cur. induction a as [|c a IH]; intros cur.
  - change ("" +:+ String "/" b) with (String "/" b). cbn [segments_from].
    change (Ascii.eqb "/" "/") with true. cbv iota.
    now destruct (String.eqb cur "").
  - rewrite string_app_cons. cbn [segments_from].
    destruct (Ascii.eqb c "/").
    + rewrite IH. now destruct (String.eqb cur "").
    + apply IH.
Qed.

(** Segments without [..] only go deeper. *)
Lemma resolve_downwards absolute segs kept :
  ~ In ".." segs ->
  fold_left (resolve_segment absolute) segs kept =
  rev (List.filter (fun seg => negb (String.eqb seg ".")) segs) ++ kept.
Proof.
  revert kept. induction segs as [|seg segs IH]; intros kept H; [reflexivity|].
  cbn [fold_left List.filter]. rewrite IH by (intros ?; apply H; now right).
  unfold resolve_segment. destruct (String.eqb seg ".") eqn:E; [reflexivity|].
  destruct (String.eqb seg "..") eqn:E'.
  - apply String.eqb_eq in E'. exfalso. apply H. now left.
  - cbn [negb rev]. now rewrite <- app_assoc.
Qed.

Lemma is_absolute_app root rest :
  root <> "" -> is_absolute (root +:+ rest) = is_absolute root.
Proof. now destruct root. Qed.

(** The segments of a path continued at a separator. *)
Lemma segments_app root rest :
  rest = "" \/ is_absolute rest = true \/ (exists dir, root = dir +:+ "/") ->
  segments (root +:+ rest) = segments root ++ segments rest.
Proof.
  unfold segments. intros [->|[H|[dir ->]]].
  - rewrite string_app_nil_r. cbn. now rewrite app_nil_r.
  - destruct rest as [|c rest]; [discriminate|].
    unfold is_absolute in H. cbn [Str.startsWith] in H.
    rewrite andb_true_r in H. apply Ascii.eqb_eq in H. subst c.
    rewrite segments_from_sep. reflexivity.
  - rewrite string_app_assoc.
    change ("/" +:+ rest) with (String "/" rest).
    rewrite !segments_from_sep. cbn. now rewrite app_nil_r.
Qed.

(** A root holds itself and whatever is written below it. *)
Lemma nested_under_below root rest :
  root <> "" ->
  ~ In ".." (segments rest) ->
  rest = "" \/ is_absolute rest = true \/ (exists dir, root = dir +:+ "/") ->
  nested_under root (root +:+ rest) = true.
Proof.
  intros Hr Hdots Hsep. unfold nested_under.
  rewrite (is_absolute_app _ _ Hr), Bool.eqb_reflx. cbn [andb].
  apply begins_with_spec. unfold resolved.
  rewrite (is_absolute_app _ _ Hr), (segments_app _ _ Hsep), fold_left_app.
  rewrite (resolve_downwards _ _ _ Hdots), rev_app_distr, rev_involutive.
  eauto.
Qed.

End Containment.

(** * Facts about the dispatcher *)

Section Dispatcher.

Import Watch.

Variable cfg : config.

(** ** Runs *)

Lemma run_snoc st evs ev : run st (evs ++ [ev]) = step (run st evs) ev.
Proof. unfold run. now rewrite fold_left_app. Qed.

Lemma run_app st evs1 evs2 : run st (evs1 ++ evs2) = run (run st evs1) evs2.
Proof. unfold run. now rewrite fold_left_app. Qed.

Lemma ready_count_snoc s evs ev :
  ready_count s (evs ++ [ev]) =
  ready_count s evs + (if is_ready s ev then 1 else 0).
Proof.
  unfold ready_count. rewrite List.filter_app, length_app. simpl.
  destruct (is_ready s ev); reflexivity.
Qed.

Lemma ready_count_app s evs1 evs2 :
  ready_count s (evs1 ++ evs2) = ready_count s evs1 + ready_count s evs2.
Proof. unfold ready_count. now rewrite List.filter_app, length_app. Qed.

(** ** What one callback does to each part of the state *)

Lemma watchers_run_callback cb path st :
  watchers (exec (run_callback cb path) st) = watchers st.
Proof. destruct cb; reflexivity. Qed.

Lemma listeners_run_callback cb path st :
  listeners (exec (run_callback cb path) st) = listeners st ++ registers cb.
Proof.
  destruct cb; cbn; rewrite <- ?app_assoc, ?app_nil_r; reflexivity.
Qed.

Lemma run_callback_bind cb cbs path st :
  exec (call_all (cb :: cbs) path) st =
  exec (call_all cbs path) (exec (run_callback cb path) st).
Proof.
  unfold exec. cbn [call_all]. unfold bind.
  destruct (run_callback cb path st) as [[] st']. reflexivity.
Qed.

Lemma watchers_call_all cbs path st :
  watchers (exec (call_all cbs path) st) = watchers st.
Proof.
  revert st. induction cbs as [|cb cbs IH]; intros st; [reflexivity|].
  rewrite run_callback_bind, IH. apply watchers_run_callback.
Qed.

Lemma listeners_call_all cbs path st :
  listeners (exec (call_all cbs path) st) =
  listeners st ++ flat_map registers cbs.
Proof.
  revert st. induction cbs as [|cb cbs IH]; intros st.
  - cbn. now rewrite app_nil_r.
  - rewrite run_callback_bind, IH, listeners_run_callback.
    cbn [flat_map]. now rewrite app_assoc.
Qed.

(** ** What one stimulus does to the watchers and the listeners *)

Lemma step_emit st s name path :
  step st (Emit s name path) =
  exec (call_all (callbacks s name (listeners st)) path) st.
Proof. reflexivity. Qed.

Lemma step_notify st fe :
  step st (Notify fe) =
  if is_ignored (ignored_roots (fe_root fe) (watchers st)) (fe_path fe)
  then st
  else step st (Emit (fe_root fe) (event_name (fe_kind fe)) (fe_path fe)).
Proof.
  cbn [step]. unfold exec, notify.
  destruct (is_ignored _ _); reflexivity.
Qed.

Lemma watchers_settle p o st : watchers (exec (settle p o) st) = watchers st.
Proof.
  unfold exec, settle. destruct (take_pending p (pending st)) as [[r rest]|];
    [|reflexivity].
  destruct r, o; reflexivity.
Qed.

Lemma listeners_settle p o st : listeners (exec (settle p o) st) = listeners st.
Proof.
  unfold exec, settle. destruct (take_pending p (pending st)) as [[r rest]|];
    [|reflexivity].
  destruct r, o; reflexivity.
Qed.

Lemma watchers_step st ev : watchers (step st ev) = watchers st.
Proof.
  destruct ev as [s name path|fe|p o].
  - rewrite step_emit. apply watchers_call_all.
  - rewrite step_notify. destruct (is_ignored _ _); [reflexivity|].
    rewrite step_emit. apply watchers_call_all.
  - apply watchers_settle.
Qed.

Lemma watchers_run st evs : watchers (run st evs) = watchers st.
Proof.
  induction evs as [|ev evs IH] using rev_ind; [reflexivity|].
  now rewrite run_snoc, watchers_step.
Qed.

(** ** The listener table after any run *)

Lemma of_session_app s l1 l2 :
  of_session s (l1 ++ l2) = of_session s l1 ++ of_session s l2.
Proof. apply List.filter_app. Qed.

Lemma of_session_handlers s s' :
  of_session s (handlers s') = if session_eqb s' s then handlers s' else [].
Proof. destruct s, s'; reflexivity. Qed.

Lemma concat_repeat_snoc {A} (l : list A) n :
  concat (repeat l (n + 1)) = concat (repeat l n) ++ l.
Proof.
  induction n as [|n IH]; cbn; [now rewrite app_nil_r|].
  now rewrite IH, app_assoc.
Qed.

(** The per-event handlers register nothing and none listens to [ready]. *)
Lemma handlers_quiet s name n :
  flat_map registers
    (map l_callback
       (List.filter (fun l => String.eqb (l_event l) name)
          (concat (repeat (handlers s) n)))) = [].
Proof.
  induction n as [|n IH]; [reflexivity|].
  cbn [repeat concat]. rewrite List.filter_app, map_app, flat_map_app, IH.
  destruct s; cbn [handlers List.filter l_event];
    repeat match goal with
           | |- context [String.eqb ?a name] => destruct (String.eqb a name)
           end; reflexivity.
Qed.

Lemma handlers_not_ready s n :
  List.filter (fun l => String.eqb (l_event l) "ready")
    (concat (repeat (handlers s) n)) = [].
Proof.
  induction n as [|n IH]; [reflexivity|].
  cbn [repeat concat]. rewrite List.filter_app, IH. destruct s; reflexivity.
Qed.

Lemma callbacks_ready s n ls :
  of_session s ls = table s n -> callbacks s "ready" ls = [ready_callback s].
Proof.
  intros H. unfold callbacks. rewrite H. unfold table. cbn [List.filter].
  cbn [ready_listener l_event]. rewrite String.eqb_refl, handlers_not_ready.
  reflexivity.
Qed.

Lemma registers_callbacks s name n ls :
  of_session s ls = table s n ->
  flat_map registers (callbacks s name ls) =
  if String.eqb name "ready" then handlers s else [].
Proof.
  intros H. unfold callbacks. rewrite H. unfold table. cbn [List.filter].
  cbn [ready_listener l_event]. rewrite (String.eqb_sym "ready" name).
  destruct (String.eqb name "ready").
  - cbn [map flat_map]. rewrite handlers_quiet, app_nil_r.
    destruct s; reflexivity.
  - apply handlers_quiet.
Qed.

Lemma listeners_step_emit st s name path n :
  of_session s (listeners st) = table s n ->
  listeners (step st (Emit s name path)) =
  listeners st ++ (if String.eqb name "ready" then handlers s else []).
Proof.
  intros H. rewrite step_emit, listeners_call_all.
  now rewrite (registers_callbacks _ _ _ _ H).
Qed.

Lemma event_name_not_ready k : String.eqb (event_name k) "ready" = false.
Proof. destruct k; reflexivity. Qed.

(** After any run, the table of each session is its [ready] handler
    followed by one copy of its per-event handlers for each [ready]. *)
Lemma table_run s evs :
  of_session s (listeners (run (startup cfg) evs)) =
  table s (ready_count s evs).
Proof.
  revert s. induction evs as [|ev evs IH] using rev_ind; intros s.
  - destruct s; reflexivity.
  - rewrite run_snoc, ready_count_snoc.
    destruct ev as [s' name path|fe|p o].
    + rewrite (listeners_step_emit _ _ _ _ _ (IH s')), of_session_app, IH.
      cbn [is_ready]. destruct (String.eqb name "ready").
      * rewrite of_session_handlers, andb_true_r.
        destruct (session_eqb s' s) eqn:E.
        -- destruct s, s'; try discriminate; unfold table;
             now rewrite concat_repeat_snoc.
        -- now rewrite app_nil_r, Nat.add_0_r.
      * now rewrite andb_false_r, app_nil_r, Nat.add_0_r.
    + rewrite step_notify. cbn [is_ready]. rewrite Nat.add_0_r.
      destruct (is_ignored _ _); [apply IH|].
      rewrite (listeners_step_emit _ _ _ _ _ (IH (fe_root fe))).
      now rewrite event_name_not_ready, app_nil_r.
    + cbn [step is_ready]. now rewrite listeners_settle, Nat.add_0_r.
Qed.

(** ** Pending promises and the trace *)

Lemma exec_run_callback cb path st :
  exec (run_callback cb path) st =
  State (watchers st) (listeners st ++ registers cb)
        (pending st ++ awaits cb (next_promise st))
        (length (awaits cb 0) + next_promise st)
        (trace st ++ effects cb path (next_promise st)).
Proof.
  destruct st as [ws ls pd n tr].
  destruct cb; cbn; rewrite <- ?app_assoc, ?app_nil_r; reflexivity.
Qed.

Lemma site_calls_app tr1 tr2 :
  site_calls (tr1 ++ tr2) = site_calls tr1 ++ site_calls tr2.
Proof.
  induction tr1 as [|e tr1 IH]; [reflexivity|].
  destruct e; cbn; now rewrite IH.
Qed.

Lemma take_pending_In p l r rest :
  take_pending p l = Some (r, rest) ->
  In (p, r) l /\ (forall x, In x rest -> In x l).
Proof.
  revert r rest. induction l as [|[q r'] l IH]; intros r rest; [discriminate|].
  cbn [take_pending]. destruct (Nat.eqb p q) eqn:E.
  - apply Nat.eqb_eq in E. subst q. intros [= <- <-].
    split; [now left|]. intros x Hx. now right.
  - destruct (take_pending p l) as [[r0 rest0]|]; [|discriminate].
    intros [= <- <-]. destruct (IH _ _ eq_refl) as [H1 H2].
    split; [now right|]. intros x [<-|Hx]; [now left|]. right. now apply H2.
Qed.

Lemma take_pending_fresh p l :
  (forall r, ~ In (p, r) l) -> take_pending p l = None.
Proof.
  induction l as [|[q r'] l IH]; intros H; [reflexivity|].
  cbn [take_pending]. destruct (Nat.eqb p q) eqn:E.
  - apply Nat.eqb_eq in E. subst q. exfalso. apply (H r'). now left.
  - rewrite IH; [reflexivity|]. intros r Hr. apply (H r). now right.
Qed.

Lemma take_pending_app p l l' r rest :
  take_pending p l = Some (r, rest) ->
  take_pending p (l ++ l') = Some (r, rest ++ l').
Proof.
  revert r rest. induction l as [|[q r'] l IH]; intros r rest; [discriminate|].
  cbn [take_pending app]. destruct (Nat.eqb p q).
  - now intros [= <- <-].
  - destruct (take_pending p l) as [[r0 rest0]|]; [|discriminate].
    intros [= <- <-]. now rewrite (IH _ _ eq_refl).
Qed.

Lemma take_pending_app_fresh p l r :
  take_pending p l = None ->
  take_pending p (l ++ [(p, r)]) = Some (r, l).
Proof.
  induction l as [|[q r'] l IH]; cbn [take_pending app].
  - now rewrite Nat.eqb_refl.
  - destruct (Nat.eqb p q); [discriminate|].
    destruct (take_pending p l) as [[r0 rest0]|]; [discriminate|].
    intros _. now rewrite IH.
Qed.

(** Taking another promise out leaves [p] pending with the same reaction. *)
Lemma take_pending_other p q l r rest r' rest' :
  p <> q ->
  take_pending p l = Some (r, rest) ->
  take_pending q l = Some (r', rest') ->
  exists rest'', take_pending p rest' = Some (r, rest'').
Proof.
  intros Hpq. revert rest rest'.
  induction l as [|[a ra] l IH]; intros rest rest'; [discriminate|].
  cbn [take_pending].
  destruct (Nat.eqb p a) eqn:Ep, (Nat.eqb q a) eqn:Eq.
  - apply Nat.eqb_eq in Ep, Eq. congruence.
  - intros [= <- <-].
    destruct (take_pending q l) as [[r0 rest0]|]; [|discriminate].
    intros [= <- <-]. cbn [take_pending]. rewrite Ep. eauto.
  - destruct (take_pending p l) as [[r0 rest0]|] eqn:Hp; [|discriminate].
    intros [= <- <-] [= <- <-]. eauto.
  - destruct (take_pending p l) as [[r0 rest0]|] eqn:Hp; [|discriminate].
    destruct (take_pending q l) as [[r1 rest1]|] eqn:Hq; [|discriminate].
    intros [= <- <-] [= <- <-].
    destruct (IH _ _ eq_refl eq_refl) as [rest'' H].
    cbn [take_pending]. rewrite Ep, H. eauto.
Qed.

(** Where an element of an appended list sits. *)
Lemma app_split {A} (l l' l1 l2 : list A) (x : A) :
  l ++ l' = l1 ++ x :: l2 ->
  (exists t, l = l1 ++ x :: t /\ l2 = t ++ l') \/
  (exists t, l1 = l ++ t /\ l' = t ++ x :: l2).
Proof.
  intros H. apply app_eq_app in H as [t [[H1 H2]|[H1 H2]]].
  - destruct t as [|y t].
    + right. exists []. rewrite app_nil_r in H1. cbn in H2. subst.
      now rewrite app_nil_r.
    + left. exists t. cbn in H2. injection H2 as -> ->. now split.
  - right. exists t. now split.
Qed.

Lemma sequenced_quiet tr tr' :
  sequenced tr -> (forall pb, ~ In (Call build pb) tr') -> sequenced (tr ++ tr').
Proof.
  intros Hseq Hq tr1 pb tr2 E.
  apply app_split in E as [[t [E _]]|[t [_ E]]].
  - now apply (Hseq _ _ _ E).
  - exfalso. apply (Hq pb). rewrite E. apply in_elt.
Qed.

Lemma sequenced_build tr pt pb :
  sequenced tr -> In (Call readTheme pt) tr ->
  sequenced (tr ++ [Settled pt Fulfilled; Call build pb]).
Proof.
  intros Hseq Hin tr1 pb' tr2 E.
  apply app_split in E as [[t [E _]]|[t [E1 E2]]].
  - now apply (Hseq _ _ _ E).
  - destruct t as [|e1 [|e2 t]]; cbn in E2.
    + discriminate.
    + inversion E2; subst. exists tr, pt. now split.
    + inversion E2 as [[He1 He2 Ht]]. now destruct t.
Qed.

Lemma Inv_grow st ws ls pend new k tr' :
  Inv st ->
  (forall x, In x pend -> In x (pending st)) ->
  (forall p r, In (p, r) new -> p < k + next_promise st) ->
  (forall p, In (p, then_build) new -> In (Call readTheme p) (trace st ++ tr')) ->
  (forall pb, ~ In (Call build pb) tr') ->
  Inv (State ws ls (pend ++ new) (k + next_promise st) (trace st ++ tr')).
Proof.
  intros [Hf Hr Hs] Hpend Hnew Hreload Hquiet. split; cbn.
  - intros p r [H|H]%in_app_iff; [|now apply (Hnew p r)].
    apply Hpend in H. apply (Hf p r) in H. lia.
  - intros p [H|H]%in_app_iff; [|now apply Hreload].
    apply in_app_iff. left. now apply Hr, Hpend.
  - now apply sequenced_quiet.
Qed.

Lemma Inv_run_callback cb path st : Inv st -> Inv (exec (run_callback cb path) st).
Proof.
  intros H. rewrite exec_run_callback.
  apply Inv_grow; [assumption|auto|..].
  - intros p r Hp.
    destruct cb; cbn in Hp; try contradiction;
      destruct Hp as [[= <- _]|[]]; cbn; lia.
  - intros p Hp. apply in_app_iff. right.
    destruct cb; cbn in Hp; try contradiction;
      destruct Hp as [[= <-]|[]]. cbn. auto.
  - intros pb. destruct cb; cbn; intuition discriminate.
Qed.

Lemma Inv_call_all cbs path st : Inv st -> Inv (exec (call_all cbs path) st).
Proof.
  revert st. induction cbs as [|cb cbs IH]; intros st H; [exact H|].
  rewrite run_callback_bind. now apply IH, Inv_run_callback.
Qed.

Lemma exec_settle p o st r rest :
  take_pending p (pending st) = Some (r, rest) ->
  exec (settle p o) st =
  exec (run_reaction r p o)
       (State (watchers st) (listeners st) rest (next_promise st)
              (trace st ++ [Settled p o])).
Proof. unfold exec, settle. now intros ->. Qed.

Lemma exec_settle_idle p o st :
  take_pending p (pending st) = None -> exec (settle p o) st = st.
Proof. unfold exec, settle. now intros ->. Qed.

Lemma Inv_settle p o st : Inv st -> Inv (exec (settle p o) st).
Proof.
  intros H. destruct (take_pending p (pending st)) as [[r rest]|] eqn:E;
    [|now rewrite exec_settle_idle].
  rewrite (exec_settle _ _ _ _ _ E).
  destruct (take_pending_In _ _ _ _ E) as [Hin Hrest].
  assert (quiet : forall tr', (forall pb, ~ In (Call build pb) tr') ->
            Inv (State (watchers st) (listeners st) (rest ++ [])
                       (0 + next_promise st) (trace st ++ tr'))).
  { intros tr' Hq. apply Inv_grow; auto; cbn; intuition. }
  rewrite app_nil_r in quiet. cbn [Nat.add] in quiet.
  destruct r, o; cbn; rewrite <- ?app_assoc; cbn [app];
    try (apply quiet; cbn; intuition discriminate).
  (* then_build, fulfilled: the one place where [build] is called *)
  destruct H as [Hf Hr Hs]. split; cbn.
  - intros q r [Hq|[[= <- _]|[]]]%in_app_iff; [|lia].
    apply Hrest in Hq. apply (Hf q r) in Hq. lia.
  - intros q [Hq|[[=]|[]]]%in_app_iff.
    apply in_app_iff. left. now apply Hr, Hrest.
  - apply sequenced_build; [assumption|now apply Hr].
Qed.

Lemma Inv_step st ev : Inv st -> Inv (step st ev).
Proof.
  intros H. destruct ev as [s name path|fe|p o].
  - rewrite step_emit. now apply Inv_call_all.
  - rewrite step_notify. destruct (is_ignored _ _); [assumption|].
    rewrite step_emit. now apply Inv_call_all.
  - now apply Inv_settle.
Qed.

Lemma Inv_startup : Inv (startup cfg).
Proof.
  split; cbn.
  - intros p r [[= <- _]|[]]. lia.
  - intros p [[=]|[]].
  - apply (sequenced_quiet []); [|cbn; intuition discriminate].
    intros [|? ?] ? ? [=].
Qed.

Lemma Inv_run evs : Inv (run (startup cfg) evs).
Proof.
  induction evs as [|ev evs IH] using rev_ind; [apply Inv_startup|].
  rewrite run_snoc. now apply Inv_step.
Qed.

Lemma pending_call_all cbs path st :
  exists new, pending (exec (call_all cbs path) st) = pending st ++ new.
Proof.
  revert st. induction cbs as [|cb cbs IH]; intros st.
  - exists []. cbn. now rewrite app_nil_r.
  - rewrite run_callback_bind. destruct (IH (exec (run_callback cb path) st))
      as [new ->]. rewrite exec_run_callback. cbn [pending].
    eexists. now rewrite <- app_assoc.
Qed.

Lemma pending_run_reaction r p o st :
  exists new, pending (exec (run_reaction r p o) st) = pending st ++ new.
Proof.
  destruct r, o; cbn;
    first [ now exists [(next_promise st, unobserved)]
          | exists []; now rewrite app_nil_r ].
Qed.

(** A pending promise stays pending, with its reaction, until it settles. *)
Lemma awaiting_step st ev p r :
  awaiting p r st -> (forall o, ev <> Settle p o) -> awaiting p r (step st ev).
Proof.
  intros [rest Hp] Hev.
  assert (grow : forall cbs path, awaiting p r (exec (call_all cbs path) st)).
  { intros cbs path. destruct (pending_call_all cbs path st) as [new E].
    exists (rest ++ new). rewrite E. now apply take_pending_app. }
  destruct ev as [s name path|fe|q o].
  - rewrite step_emit. apply grow.
  - rewrite step_notify. destruct (is_ignored _ _); [now exists rest|].
    rewrite step_emit. apply grow.
  - cbn [step]. assert (p <> q) by (intros ->; now apply (Hev o)).
    destruct (take_pending q (pending st)) as [[r' rest']|] eqn:Hq.
    + rewrite (exec_settle _ _ _ _ _ Hq).
      destruct (take_pending_other _ _ _ _ _ _ _ H Hp Hq) as [rest'' E].
      match goal with
      | |- awaiting _ _ (exec _ ?st0) =>
          destruct (pending_run_reaction r' q o st0) as [new En]
      end.
      exists (rest'' ++ new). rewrite En. now apply take_pending_app.
    + rewrite (exec_settle_idle _ _ _ Hq). now exists rest.
Qed.

Lemma awaiting_run st evs p r :
  awaiting p r st -> (forall o, ~ In (Settle p o) evs) ->
  awaiting p r (run st evs).
Proof.
  revert st. induction evs as [|ev evs IH]; intros st H Hevs; [exact H|].
  cbn [run fold_left]. apply IH.
  - apply awaiting_step; [exact H|]. intros o ->. apply (Hevs o). now left.
  - intros o Ho. apply (Hevs o). now right.
Qed.

(** The promise a callback has just obtained is pending with its reaction. *)
Lemma awaiting_fresh st ws ls n tr r :
  Inv st ->
  awaiting (next_promise st) r
    (State ws ls (pending st ++ [(next_promise st, r)]) n tr).
Proof.
  intros [Hf _ _]. exists (pending st). cbn [pending].
  apply take_pending_app_fresh, take_pending_fresh.
  intros r' Hin. apply Hf in Hin. lia.
Qed.

(** ** Dispatch once a session has signalled [ready] exactly once *)

Lemma step_source_event evs k path :
  ready_count Source evs = 1 ->
  step (run (startup cfg) evs) (Emit Source (event_name k) path) =
  exec (run_callback (handler_of k) path) (run (startup cfg) evs).
Proof.
  intros H. rewrite step_emit. unfold callbacks.
  rewrite (table_run Source evs), H. destruct k; reflexivity.
Qed.

Lemma step_theme_change evs path :
  ready_count Theme evs = 1 ->
  step (run (startup cfg) evs) (Emit Theme "change" path) =
  exec (run_callback on_theme_change path) (run (startup cfg) evs).
Proof.
  intros H. rewrite step_emit. unfold callbacks.
  rewrite (table_run Theme evs), H. reflexivity.
Qed.

Lemma effects_handler_of k path p :
  effects (handler_of k) path p =
  [LoggerInfo (kind_label k +:+ path); LoggerInfo "Rebuilding...";
   Call (action_of k path) p].
Proof. destruct k; reflexivity. Qed.

(** ** The properties of the dispatcher *)

(** C6. Once the source session has signalled ready, a file event on it
    invokes exactly one action of the site, the one of its kind
    ([fileAdded], [fileChanged] or [fileRemoved]) for its path, after two log
    lines; and when the promise of that action settles, either way, no further
    action is invoked. *)
Theorem source_event_invokes_its_action evs k path :
  ready_count Source evs = 1 ->
  let st := run (startup cfg) evs in
  let st' := step st (Emit Source (event_name k) path) in
  trace st' =
    trace st ++ [LoggerInfo (kind_label k +:+ path); LoggerInfo "Rebuilding...";
                 Call (action_of k path) (next_promise st)] /\
  site_calls (trace st') = site_calls (trace st) ++ [action_of k path] /\
  (forall o, site_calls (trace (step st' (Settle (next_promise st) o))) =
             site_calls (trace st')).
Proof.
  intros H st st'. subst st'. rewrite (step_source_event _ _ _ H).
  fold st. rewrite exec_run_callback, effects_handler_of. cbn [trace].
  split; [reflexivity|]. split; [now rewrite site_calls_app|].
  intros o. cbn [step].
  assert (Hw : awaits (handler_of k) (next_promise st) =
               [(next_promise st, then_log_done)]) by now destruct k.
  rewrite Hw.
  match goal with
  | |- context [exec (settle _ _) ?s0] =>
      destruct (awaiting_fresh st (watchers s0) (listeners s0)
                  (next_promise s0) (trace s0) then_log_done (Inv_run evs))
        as [rest E]
  end.
  erewrite exec_settle by exact E.
  destruct o; cbn; now rewrite !site_calls_app, ?app_nil_r.
Qed.

(** C7. Before a session has signalled ready, its only listener is the
    ready handler: no event of another name, and no file event observed by
    the session, has any effect. *)
Theorem no_handler_before_ready s evs :
  ready_count s evs = 0 ->
  let st := run (startup cfg) evs in
  of_session s (listeners st) = [ready_listener s] /\
  (forall name path, name <> "ready" -> step st (Emit s name path) = st) /\
  (forall k path, step st (Notify (MkFileEvent k path s)) = st).
Proof.
  intros H st.
  assert (T : of_session s (listeners st) = [ready_listener s]).
  { subst st. now rewrite table_run, H. }
  assert (E : forall name path,
             name <> "ready" -> step st (Emit s name path) = st).
  { intros name path Hn. rewrite step_emit. unfold callbacks. rewrite T.
    cbn [List.filter ready_listener l_event].
    apply String.eqb_neq in Hn. rewrite String.eqb_sym, Hn. reflexivity. }
  repeat split; [exact T|exact E|].
  intros k path. rewrite step_notify. cbn [fe_root fe_kind fe_path].
  destruct (is_ignored _ _); [reflexivity|]. apply E. now destruct k.
Qed.

(** C3. In every run, a call of [build] comes right after the fulfilment of
    a promise that an earlier call of [readTheme] returned: [build] never
    starts before the theme reload has settled. *)
Theorem build_only_after_theme_reload evs tr1 pb tr2 :
  trace (run (startup cfg) evs) = tr1 ++ Call build pb :: tr2 ->
  exists tr0 pt,
    tr1 = tr0 ++ [Settled pt Fulfilled] /\ In (Call readTheme pt) tr0.
Proof. apply (inv_sequenced _ (Inv_run evs)). Qed.

(** C1, as amended. Once the theme session has signalled ready, a [change]
    event on it invokes [readTheme], and the fulfilment of that promise,
    whenever it comes, invokes [build]; an event of any other name ([add],
    [unlink], [addDir], ...) has no effect at all. *)
Theorem theme_change_reloads_then_builds evs path :
  ready_count Theme evs = 1 ->
  let st := run (startup cfg) evs in
  let st1 := step st (Emit Theme "change" path) in
  trace st1 =
    trace st ++ [LoggerInfo ("Theme file changed at: " +:+ path);
                 LoggerInfo "Rebuilding..."; Call readTheme (next_promise st)] /\
  (forall evs2,
      (forall o, ~ In (Settle (next_promise st) o) evs2) ->
      let st2 := run st1 evs2 in
      trace (step st2 (Settle (next_promise st) Fulfilled)) =
        trace st2 ++ [Settled (next_promise st) Fulfilled;
                      Call build (next_promise st2)]) /\
  (forall name path',
      name <> "change" -> name <> "ready" ->
      step st (Emit Theme name path') = st).
Proof.
  intros H st st1. subst st1. rewrite (step_theme_change _ _ H). fold st.
  rewrite exec_run_callback. cbn [trace effects awaits].
  split; [reflexivity|]. split.
  - intros evs2 Hevs2.
    match goal with |- context [step ?s2 _] => set (st2 := s2) end.
    assert (A : awaiting (next_promise st) then_build st2).
    { apply awaiting_run; [|exact Hevs2]. apply awaiting_fresh, Inv_run. }
    destruct A as [rest E]. cbn [step].
    rewrite (exec_settle _ _ _ _ _ E). cbn. now rewrite <- app_assoc.
  - intros name path' Hc Hr. rewrite step_emit. unfold callbacks.
    subst st. rewrite (table_run Theme evs), H.
    cbn [table handlers repeat concat app List.filter ready_listener l_event].
    apply String.eqb_neq in Hc, Hr.
    rewrite (String.eqb_sym "ready"), Hr, (String.eqb_sym "change"), Hc.
    reflexivity.
Qed.

(** C2, as amended. The module body opens both watch sessions and registers
    their ready handlers right after calling [readFiles], before its outcome
    is known. When [readFiles] fails, the stack of the error is printed and
    the error is thrown again, which nobody handles, and [readFiles] is not
    called again. Whichever way [readFiles] settles the listeners stay, and
    whatever happens afterwards both sessions stay open. *)
Theorem sessions_open_whatever_readFiles_does o e evs :
  let st0 := startup cfg in
  site_calls (trace st0) = [readFiles] /\
  In (Call readFiles 0) (trace st0) /\
  watchers st0 =
    [WatchSession Source [path_source cfg]
       [path_plugins cfg; path_themes cfg; path_destination cfg];
     WatchSession Theme [path_themes cfg] []] /\
  listeners st0 = [ready_listener Source; ready_listener Theme] /\
  trace (step st0 (Settle 0 (Rejected e))) =
    trace st0 ++ [Settled 0 (Rejected e); ConsoleLog (stack e);
                  UnhandledRejection 0 e] /\
  listeners (step st0 (Settle 0 o)) = listeners st0 /\
  watchers (run (step st0 (Settle 0 o)) evs) = watchers st0.
Proof.
  intros st0. repeat split; try reflexivity.
  - cbn. auto.
  - apply listeners_settle.
  - now rewrite watchers_run, watchers_step.
Qed.

(** C8. Once the source session is ready, the rejection of the promise of a
    per-event action is not caught (it ends as an unhandled rejection), calls
    no action again, and leaves the watch sessions and the listeners as they
    were: a file event that follows, of any kind and for any path, invokes
    its action as usual. *)
Theorem action_failure_keeps_watching evs1 evs2 p r e k path :
  ready_count Source evs1 = 1 ->
  ready_count Source evs2 = 0 ->
  awaiting p r (run (startup cfg) evs1) ->
  r <> catch_log_rethrow ->
  let st1 := run (startup cfg) evs1 in
  let st2 := step st1 (Settle p (Rejected e)) in
  let st3 := run st2 evs2 in
  watchers st2 = watchers st1 /\
  listeners st2 = listeners st1 /\
  trace st2 = trace st1 ++ [Settled p (Rejected e); UnhandledRejection p e] /\
  trace (step st3 (Emit Source (event_name k) path)) =
    trace st3 ++ [LoggerInfo (kind_label k +:+ path); LoggerInfo "Rebuilding...";
                  Call (action_of k path) (next_promise st3)].
Proof.
  intros H1 H2 [rest E] Hr st1 st2 st3.
  split; [apply watchers_settle|]. split; [apply listeners_settle|]. split.
  - subst st2. cbn [step]. fold st1 in E. rewrite (exec_settle _ _ _ _ _ E).
    destruct r; [now destruct Hr|..]; cbn; now rewrite <- app_assoc.
  - assert (E3 : st3 = run (startup cfg) (evs1 ++ Settle p (Rejected e) :: evs2)).
    { subst st3 st2 st1. now rewrite run_app. }
    rewrite E3, step_source_event.
    + now rewrite exec_run_callback, effects_handler_of.
    + rewrite ready_count_app, H1.
      change (Settle p (Rejected e) :: evs2)
        with ([Settle p (Rejected e)] ++ evs2).
      rewrite ready_count_app, H2. reflexivity.
Qed.

(** C5. The source session is created with the plugins, themes and
    destination directories as ignored roots, the theme session with none.
    A path is ignored exactly when it is, or lies under, one of the roots,
    segment by segment: a root holds itself and whatever is written below it
    after a separator. A file event of the source session whose path is
    ignored is discarded without a trace or an error; any other is emitted to
    the listeners. The boundary is at a separator:
    [/proj/src/theme-extra/file.txt] is not under [/proj/src/theme],
    [/proj/src/theme/file.txt] is, and so is a file under a root that is
    written with a trailing separator. *)
Theorem ignored_path_is_discarded evs k path :
  let st := run (startup cfg) evs in
  let roots := [path_plugins cfg; path_themes cfg; path_destination cfg] in
  ignored_roots Source (watchers st) = roots /\
  ignored_roots Theme (watchers st) = [] /\
  (is_ignored roots path = true <->
   exists root, In root roots /\
     is_absolute root = is_absolute path /\
     exists inner, resolved path = resolved root ++ inner) /\
  (forall root rest,
      In root roots -> root <> "" -> ~ In ".." (segments rest) ->
      rest = "" \/ is_absolute rest = true \/ (exists dir, root = dir +:+ "/") ->
      is_ignored roots (root +:+ rest) = true) /\
  (is_ignored roots path = true ->
   step st (Notify (MkFileEvent k path Source)) = st) /\
  (is_ignored roots path = false ->
   step st (Notify (MkFileEvent k path Source)) =
   step st (Emit Source (event_name k) path)) /\
  nested_under "/proj/src/theme" "/proj/src/theme-extra/file.txt" = false /\
  nested_under "/proj/src/theme" "/proj/src/theme/file.txt" = true /\
  nested_under "/proj/src/_site/" "/proj/src/_site/index.html" = true /\
  nested_under "/" "/proj/src/a.md" = true.
Proof.
  intros st roots.
  assert (R : ignored_roots Source (watchers st) = roots).
  { subst st. now rewrite watchers_run. }
  split; [exact R|]. split; [subst st; now rewrite watchers_run|].
  split; [|split; [|split; [|split; [|repeat split; reflexivity]]]].
  - unfold is_ignored. rewrite existsb_exists.
    split; intros [root [Hin Hn]]; exists root; (split; [exact Hin|]).
    + unfold nested_under in Hn. apply andb_true_iff in Hn as [Ha Hb].
      split; [now apply Bool.eqb_prop|now apply begins_with_spec].
    + destruct Hn as [Ha Hb]. unfold nested_under.
      rewrite Ha, Bool.eqb_reflx. now apply begins_with_spec.
  - intros root rest Hin Hr Hdots Hsep. unfold is_ignored.
    apply existsb_exists. exists root. split; [exact Hin|].
    now apply nested_under_below.
  - intros Hi. rewrite step_notify. cbn [fe_root fe_path]. now rewrite R, Hi.
  - intros Hi. rewrite step_notify. cbn [fe_root fe_path fe_kind].
    now rewrite R, Hi.
Qed.

End Dispatcher.


(** * The dispatcher on concrete runs *)

Section DispatcherExamples.

Import Watch.

Lemma source_event_invokes_its_action_witness :
  ready_count Source [Emit Source "ready" ""] = 1 /\
  site_calls
    (trace (step (run (startup cfg0) [Emit Source "ready" ""])
                 (Emit Source "add" "/src/a.md"))) =
  [readFiles; fileAdded "/src/a.md"].
Proof.
  split; [reflexivity|].
  exact (proj1 (proj2 (source_event_invokes_its_action cfg0
                         [Emit Source "ready" ""] Added "/src/a.md" eq_refl))).
Defined.

(** The initial scan reports a file that was already there: nothing runs. *)
Lemma no_handler_before_ready_witness :
  ready_count Source [Emit Theme "ready" ""] = 0 /\
  step (run (startup cfg0) [Emit Theme "ready" ""])
       (Emit Source "add" "/proj/src/old.md") =
  run (startup cfg0) [Emit Theme "ready" ""].
Proof.
  split; [reflexivity|].
  apply (proj1 (proj2 (no_handler_before_ready cfg0 Source
                         [Emit Theme "ready" ""] eq_refl))).
  discriminate.
Defined.

Lemma build_only_after_theme_reload_witness :
  exists tr0 pt,
    trace (startup cfg0) ++
      [On Theme "change" on_theme_change;
       LoggerInfo "Theme file changed at: /proj/src/theme/a.html";
       LoggerInfo "Rebuilding..."; Call readTheme 1; Settled 1 Fulfilled] =
    tr0 ++ [Settled pt Fulfilled] /\ In (Call readTheme pt) tr0.
Proof.
  apply (build_only_after_theme_reload cfg0
           [Emit Theme "ready" ""; Emit Theme "change" "/proj/src/theme/a.html";
            Settle 1 Fulfilled] _ 2 []).
  reflexivity.
Defined.

(** C1, counterexample: on the theme session, ready, an [add] event invokes
    neither [readTheme] nor [build]; the state is left as it was. *)
Lemma theme_add_event_reloads_nothing :
  let st := run (startup cfg0) [Emit Theme "ready" ""] in
  let st' := step st (Emit Theme "add" "/proj/src/theme/new.html") in
  ~ In readTheme (site_calls (trace st')) /\
  ~ In build (site_calls (trace st')) /\
  st' = st.
Proof.
  cbv zeta. split; [|split; [|reflexivity]];
    vm_compute; intros [H|[]]; discriminate H.
Qed.

Lemma theme_change_reloads_then_builds_witness :
  let st := run (startup cfg0) [Emit Theme "ready" ""] in
  let st1 := step st (Emit Theme "change" "/proj/src/theme/a.html") in
  let st2 := run st1 [Emit Source "ready" ""] in
  ready_count Theme [Emit Theme "ready" ""] = 1 /\
  site_calls (trace st) = [readFiles] /\
  trace st1 =
    trace st ++ [LoggerInfo "Theme file changed at: /proj/src/theme/a.html";
                 LoggerInfo "Rebuilding..."; Call readTheme (next_promise st)] /\
  trace (step st2 (Settle (next_promise st) Fulfilled)) =
    trace st2 ++ [Settled (next_promise st) Fulfilled;
                  Call build (next_promise st2)].
Proof.
  cbv zeta.
  pose proof (theme_change_reloads_then_builds cfg0 [Emit Theme "ready" ""]
                "/proj/src/theme/a.html" eq_refl) as [H1 [H2 _]].
  split; [reflexivity|]. split; [reflexivity|]. split; [exact H1|].
  apply (H2 [Emit Source "ready" ""]).
  intros o [E|[]]. discriminate E.
Defined.

(** C2, counterexample: [readFiles] fails, and still both sessions are
    open, their listeners registered, and a later change is dispatched. *)
Lemma readFiles_failure_does_not_stop_watching :
  let st := run (startup cfg0)
              [Settle 0 (Rejected enoent); Emit Source "ready" "";
               Emit Source "change" "/proj/src/a.md"] in
  In (Call readFiles 0) (trace st) /\
  In (Settled 0 (Rejected enoent)) (trace st) /\
  map w_role (watchers st) = [Source; Theme] /\
  of_session Source (listeners st) = table Source 1 /\
  site_calls (trace st) = [readFiles; fileChanged "/proj/src/a.md"].
Proof.
  cbv zeta. split; [|split; [|split; [|split]]]; try reflexivity;
    vm_compute; tauto.
Qed.

Lemma action_failure_keeps_watching_witness :
  let evs1 := [Emit Source "ready" ""; Emit Source "change" "/proj/src/a.md"] in
  let st1 := run (startup cfg0) evs1 in
  let st2 := step st1 (Settle 1 (Rejected enoent)) in
  let st3 := run st2 [Emit Theme "ready" ""] in
  ready_count Source evs1 = 1 /\
  awaiting 1 then_log_done st1 /\
  site_calls (trace st3) = [readFiles; fileChanged "/proj/src/a.md"] /\
  trace (step st3 (Emit Source (event_name Added) "/proj/src/b.md")) =
    trace st3 ++ [LoggerInfo (kind_label Added +:+ "/proj/src/b.md");
                  LoggerInfo "Rebuilding...";
                  Call (action_of Added "/proj/src/b.md") (next_promise st3)].
Proof.
  cbv zeta.
  assert (A : awaiting 1 then_log_done
                (run (startup cfg0)
                   [Emit Source "ready" "";
                    Emit Source "change" "/proj/src/a.md"])).
  { eexists. reflexivity. }
  split; [reflexivity|]. split; [exact A|]. split; [reflexivity|].
  pose proof (action_failure_keeps_watching cfg0
                [Emit Source "ready" ""; Emit Source "change" "/proj/src/a.md"]
                [Emit Theme "ready" ""] 1 then_log_done enoent Added
                "/proj/src/b.md" eq_refl eq_refl A ltac:(discriminate))
    as [_ [_ [_ H]]].
  exact H.
Defined.

Lemma ignored_path_is_discarded_witness :
  let st := run (startup cfg0) [Emit Source "ready" ""] in
  is_ignored ["/proj/src/_plugins"; "/proj/src/theme"; "/proj/src/_site"]
             "/proj/src/theme/file.txt" = true /\
  is_ignored ["/proj/src/_plugins"; "/proj/src/theme"; "/proj/src/_site"]
             "/proj/src/theme-extra/file.txt" = false /\
  step st (Notify (MkFileEvent Changed "/proj/src/theme/file.txt" Source)) = st /\
  site_calls
    (trace (step st (Notify (MkFileEvent Changed
                               "/proj/src/theme-extra/file.txt" Source)))) =
  [readFiles; fileChanged "/proj/src/theme-extra/file.txt"].
Proof.
  cbv zeta. split; [reflexivity|]. split; [reflexivity|]. split.
  - apply (ignored_path_is_discarded cfg0 [Emit Source "ready" ""] Changed
             "/proj/src/theme/file.txt").
    reflexivity.
  - destruct (ignored_path_is_discarded cfg0 [Emit Source "ready" ""] Changed
                "/proj/src/theme-extra/file.txt")
      as (_ & _ & _ & _ & _ & H & _).
    rewrite (H eq_refl). reflexivity.
Defined.

End DispatcherExamples.

(** * The package resolver *)

Section Resolver.

Import Json.

Lemma is_plugin_name_spec prefix name :
  is_plugin_name prefix name = true <->
  Str.startsWith prefix name = true /\
  String.length prefix < String.length name.
Proof.
  unfold is_plugin_name. now rewrite andb_true_iff, Nat.ltb_lt.
Qed.

Lemma elem_of_resolvePlugins prefix m name :
  name ∈ resolvePlugins prefix m <->
  (name ∈ names (dependencies m) \/ name ∈ names (devDependencies m)) /\
  Str.startsWith prefix name = true /\
  String.length prefix < String.length name.
Proof.
  unfold resolvePlugins.
  rewrite elem_of_filter, elem_of_union, is_plugin_name_spec. tauto.
Qed.

(** C4. A name is in the result of the resolver exactly when it is in one of
    the two dependency lists, starts with the prefix and is strictly longer
    than it; the bare prefix is never in the result; and for the lists of the
    example the result is the three [yarn-] packages. *)
Theorem resolvePlugins_spec prefix m name :
  (name ∈ resolvePlugins prefix m <->
   (name ∈ names (dependencies m) \/ name ∈ names (devDependencies m)) /\
   Str.startsWith prefix name = true /\
   String.length prefix < String.length name) /\
  (prefix ∉ resolvePlugins prefix m) /\
  getYarnPackageNames example_manifest =
    {[ "yarn-excerpt"; "yarn-html-minifier"; "yarn-scaffold" ]}.
Proof.
  split; [apply elem_of_resolvePlugins|]. split.
  - rewrite elem_of_resolvePlugins. intros (_ & _ & H). lia.
  - apply set_eq. intros x. unfold getYarnPackageNames.
    rewrite elem_of_resolvePlugins. cbn [example_manifest dependencies
      devDependencies names].
    rewrite !dom_insert_L, !dom_singleton_L.
    rewrite !elem_of_union, !elem_of_singleton.
    split.
    + intros ([[->| ->]|[->|[->| ->]]] & H1 & H2);
        try discriminate H1; auto.
    + intros [[->| ->]| ->]; (split; [|split; [reflexivity|cbn; lia]]); auto.
Qed.

Lemma resolvePlugins_spec_witness :
  "yarn-excerpt" ∈ getYarnPackageNames example_manifest /\
  "lodash" ∉ getYarnPackageNames example_manifest.
Proof.
  destruct (resolvePlugins_spec "yarn-" example_manifest "yarn-excerpt")
    as (_ & _ & E).
  rewrite E. split.
  - apply elem_of_union_l, elem_of_union_l, elem_of_singleton. reflexivity.
  - rewrite !elem_of_union, !elem_of_singleton.
    intros [[H|H]|H]; discriminate H.
Defined.

End Resolver.

(** * The fixtures *)

Section FixtureFacts.

Import Fixtures.

Variable disk : gmap string string.

Lemma mirror_failed mapKey paths :
  foldl (mirror_entry disk mapKey) None paths = None.
Proof. induction paths as [|p paths IH]; [reflexivity|exact IH]. Qed.

(** With the default key mapping every path is its own key. *)
Lemma mirror_lookup paths acc mocks :
  foldl (mirror_entry disk (λ x, x)) (Some acc) paths = Some mocks ->
  forall k, mocks !! k = if decide (k ∈ paths) then disk !! k else acc !! k.
Proof.
  revert acc. induction paths as [|p paths IH]; intros acc.
  - cbn. intros [= <-] k. rewrite decide_False; [reflexivity|].
    apply not_elem_of_nil.
  - cbn [foldl]. unfold mirror_entry at 2. cbn. unfold readFileSync.
    destruct (disk !! p) as [c|] eqn:Ep; cbn.
    + intros H k. rewrite (IH _ H k).
      destruct (decide (k ∈ paths)) as [Hin|Hnin].
      * rewrite decide_True; [reflexivity|]. now apply list_elem_of_further.
      * destruct (decide (k = p)) as [->|Hne].
        -- rewrite lookup_insert_eq, decide_True; [now rewrite Ep|].
           apply list_elem_of_here.
        -- rewrite lookup_insert_ne by congruence.
           rewrite decide_False; [reflexivity|].
           intros [?|?]%elem_of_cons; contradiction.
    + now rewrite mirror_failed.
Qed.

(** A reduction that ends well has read every path. *)
Lemma mirror_reads mapKey paths acc mocks :
  foldl (mirror_entry disk mapKey) (Some acc) paths = Some mocks ->
  forall p, p ∈ paths -> is_Some (disk !! p).
Proof.
  revert acc. induction paths as [|q paths IH]; intros acc H p Hp.
  - now apply elem_of_nil in Hp.
  - cbn [foldl] in H. unfold mirror_entry at 2 in H. cbn in H.
    unfold readFileSync in H.
    destruct (disk !! q) as [c|] eqn:Eq; cbn in H.
    + apply elem_of_cons in Hp as [->|Hp]; [now rewrite Eq|].
      now apply (IH _ H).
    + now rewrite mirror_failed in H.
Qed.

Lemma mirror_total mapKey paths acc :
  (forall p, p ∈ paths -> is_Some (disk !! p)) ->
  exists mocks, foldl (mirror_entry disk mapKey) (Some acc) paths = Some mocks.
Proof.
  revert acc. induction paths as [|p paths IH]; intros acc H.
  - now exists acc.
  - cbn [foldl]. unfold mirror_entry at 2. cbn. unfold readFileSync.
    destruct (H p) as [c ->]; [apply list_elem_of_here|]. cbn.
    apply IH. intros q Hq. apply H. now apply list_elem_of_further.
Qed.

Lemma mirror_without_mapKey paths (opts : options) :
  opts !! "mapKey" = None ->
  mirrorPathsToContent disk paths opts =
  foldl (mirror_entry disk (λ x, x)) (Some ∅) paths.
Proof. unfold mirrorPathsToContent. now intros ->. Qed.

Lemma msapKey_is_not_mapKey f :
  ({[ "msapKey" := f ]} : options) !! "mapKey" = None.
Proof. now apply lookup_singleton_ne. Qed.

(** C9. In the npm branch of [mockSimpleSite] the key mapping sits under
    [msapKey], so [mirrorPathsToContent] finds no [mapKey] and keeps every
    path as its own key. Whatever function is passed there, the result is
    the one for no options at all; [npmMocks] is defined as soon as every
    path can be read; its keys are exactly the paths, each with the content
    of its file, and so they are in the object [mockSimpleSite] returns. The
    intended rewrite of a path under [node_modules] is another key, which
    the result does not have. *)
Theorem npm_mocks_keep_full_paths dirname yarnRoot filePaths themePaths npmPaths :
  (forall f, mirrorPathsToContent disk npmPaths {[ "msapKey" := f ]} =
             mirrorPathsToContent disk npmPaths ∅) /\
  ((forall p, p ∈ npmPaths -> is_Some (disk !! p)) ->
   exists mocks, npmMocks disk npmPaths = Some mocks) /\
  (forall mocks, npmMocks disk npmPaths = Some mocks ->
   forall k, mocks !! k = if decide (k ∈ npmPaths) then disk !! k else None) /\
  (forall allMocks,
     mockSimpleSite disk dirname yarnRoot filePaths themePaths npmPaths =
       Some allMocks ->
     forall p, p ∈ npmPaths -> allMocks !! p = disk !! p) /\
  node_modules_key npm_file = "node_modules/yarn-excerpt/index.js" /\
  npmMocks example_disk [npm_file] = Some example_disk.
Proof.
  assert (L : forall mocks, npmMocks disk npmPaths = Some mocks ->
     forall k, mocks !! k = if decide (k ∈ npmPaths) then disk !! k else None).
  { intros mocks. unfold npmMocks, npm_options.
    rewrite mirror_without_mapKey by apply msapKey_is_not_mapKey.
    intros H k. rewrite (mirror_lookup _ _ _ H k).
    now destruct (decide (k ∈ npmPaths)). }
  split; [|split; [|split; [exact L|split; [|split; reflexivity]]]].
  - intros f. rewrite !mirror_without_mapKey; [reflexivity|apply lookup_empty|].
    apply msapKey_is_not_mapKey.
  - intros H. unfold npmMocks, npm_options.
    rewrite mirror_without_mapKey by apply msapKey_is_not_mapKey.
    now apply mirror_total.
  - intros allMocks H p Hp. unfold mockSimpleSite in H.
    apply bind_Some in H as (mocks & _ & H).
    apply bind_Some in H as (themeOne & _ & H).
    apply bind_Some in H as (npm & En & H).
    apply bind_Some in H as (core & _ & H).
    injection H as <-.
    assert (Hnpm : npm !! p = disk !! p).
    { rewrite (L _ En p). now rewrite decide_True. }
    assert (Hread : is_Some (disk !! p)).
    { unfold npmMocks, mirrorPathsToContent in En.
      now apply (mirror_reads _ _ _ _ En). }
    destruct Hread as [c Hc]. rewrite Hc in *.
    now apply lookup_union_Some_l.
Qed.

Lemma filterOnlyFiles_lookup (files : gmap string string) k :
  filterOnlyFiles files !! k = if matches_html k then files !! k else None.
Proof.
  revert k. unfold filterOnlyFiles.
  apply (map_fold_weak_ind
           (fun r (m : gmap string string) =>
              forall k, r !! k = if matches_html k then m !! k else None)).
  - intros k. rewrite !lookup_empty. now destruct (matches_html k).
  - intros i x m r Hi IH k. destruct (decide (k = i)) as [->|Hne].
    + destruct (matches_html i) eqn:E.
      * now rewrite !lookup_insert_eq.
      * now rewrite IH, E.
    + rewrite (lookup_insert_ne m) by congruence.
      destruct (matches_html i); [|apply IH].
      rewrite lookup_insert_ne by congruence. apply IH.
Qed.

(** C10. [filterOnlyFiles] keeps an entry, value unchanged, exactly when its
    key contains [.html]; every other key, one that ends in [.json] too, is
    dropped. *)
Theorem filterOnlyFiles_keeps_html (files : gmap string string) :
  (forall k, filterOnlyFiles files !! k =
             if matches_html k then files !! k else None) /\
  (forall k, matches_html k = true <-> exists a b, k = a +:+ ".html" +:+ b) /\
  filterOnlyFiles {[ "posts/index.html" := "<html>"; "data/posts.json" := "[]";
                     "about.html.bak" := "old" ]} =
    {[ "posts/index.html" := "<html>"; "about.html.bak" := "old" ]}.
Proof.
  split; [apply filterOnlyFiles_lookup|]. split.
  - intros k. apply includes_spec.
  - apply map_eq. intros k. rewrite filterOnlyFiles_lookup.
    destruct (decide (k = "posts/index.html")) as [->|N1]; [reflexivity|].
    destruct (decide (k = "about.html.bak")) as [->|N2]; [reflexivity|].
    destruct (decide (k = "data/posts.json")) as [->|N3]; [reflexivity|].
    rewrite !lookup_insert_ne, !lookup_singleton_ne by congruence.
    now destruct (matches_html k).
Qed.

End FixtureFacts.

(** * The npm branch on a concrete disk *)

Section FixtureExamples.

Import Fixtures.

Lemma npm_mocks_keep_full_paths_witness :
  let disk := example_disk in
  (forall p, p ∈ [npm_file] -> is_Some (disk !! p)) /\
  exists mocks,
    npmMocks disk [npm_file] = Some mocks /\
    mocks !! npm_file = Some "module.exports = 1;" /\
    mocks !! node_modules_key npm_file = None.
Proof.
  cbv zeta.
  assert (H : forall p, p ∈ [npm_file] -> is_Some (example_disk !! p)).
  { intros p ->%list_elem_of_singleton. now eexists. }
  split; [exact H|].
  destruct (npm_mocks_keep_full_paths example_disk "/repo/test/fixtures"
              "/repo" [] [] [npm_file]) as (_ & T & L & _).
  destruct (T H) as [mocks E]. exists mocks. split; [exact E|].
  rewrite !(L mocks E). split; reflexivity.
Defined.

End FixtureExamples.

(** * More about the dispatcher *)

Section DispatcherCoverage.

Import Watch.

Variable cfg : config.

(** ** The actions one stimulus invokes *)

Lemma site_calls_effects cb path p :
  site_calls (effects cb path p) = calls_of cb path.
Proof. destruct cb; reflexivity. Qed.

Lemma site_calls_run_callback cb path st :
  site_calls (trace (exec (run_callback cb path) st)) =
  site_calls (trace st) ++ calls_of cb path.
Proof.
  rewrite exec_run_callback. cbn [trace].
  now rewrite site_calls_app, site_calls_effects.
Qed.

Lemma site_calls_call_all cbs path st :
  site_calls (trace (exec (call_all cbs path) st)) =
  site_calls (trace st) ++ flat_map (fun cb => calls_of cb path) cbs.
Proof.
  revert st. induction cbs as [|cb cbs IH]; intros st.
  - cbn. now rewrite app_nil_r.
  - rewrite run_callback_bind, IH, site_calls_run_callback.
    cbn [flat_map]. now rewrite app_assoc.
Qed.

Lemma site_calls_settle p o st :
  site_calls (trace (exec (settle p o) st)) = site_calls (trace st) \/
  site_calls (trace (exec (settle p o) st)) = site_calls (trace st) ++ [build].
Proof.
  destruct (take_pending p (pending st)) as [[r rest]|] eqn:E.
  - rewrite (exec_settle _ _ _ _ _ E).
    destruct r, o; cbn; rewrite ?site_calls_app; cbn;
      rewrite ?app_nil_r; auto.
  - rewrite (exec_settle_idle _ _ _ E). now left.
Qed.

Lemma flat_map_repeat {A B} (f : A -> list B) (x : A) (y : B) n :
  f x = [y] -> flat_map f (repeat x n) = repeat y n.
Proof.
  intros H. induction n as [|n IH]; [reflexivity|].
  cbn. now rewrite H, IH.
Qed.

Lemma callbacks_source_event k n ls :
  of_session Source ls = table Source n ->
  callbacks Source (event_name k) ls = repeat (handler_of k) n.
Proof.
  intros H. unfold callbacks. rewrite H. unfold table.
  cbn [List.filter ready_listener l_event].
  replace (String.eqb "ready" (event_name k)) with false by now destruct k.
  clear H. induction n as [|n IH]; [reflexivity|].
  cbn [repeat concat]. rewrite List.filter_app, map_app, IH.
  now destruct k.
Qed.

Lemma callbacks_theme_change n ls :
  of_session Theme ls = table Theme n ->
  callbacks Theme "change" ls = repeat on_theme_change n.
Proof.
  intros H. unfold callbacks. rewrite H. unfold table.
  cbn [List.filter ready_listener l_event].
  change (String.eqb "ready" "change") with false. cbv iota.
  clear H. induction n as [|n IH]; [reflexivity|].
  cbn [repeat concat]. now rewrite List.filter_app, map_app, IH.
Qed.

(** X1. The per-event handlers are registered by the ready callback, so a
    file event on the source session invokes its action once for every ready
    signal the session has given so far, and a [change] on the theme session
    invokes [readTheme] once for every ready signal of that session. *)
Theorem one_call_per_ready_signal evs k path :
  let st := run (startup cfg) evs in
  site_calls (trace (step st (Emit Source (event_name k) path))) =
    site_calls (trace st) ++ repeat (action_of k path) (ready_count Source evs) /\
  site_calls (trace (step st (Emit Theme "change" path))) =
    site_calls (trace st) ++ repeat readTheme (ready_count Theme evs).
Proof.
  intros st. subst st. split; rewrite step_emit, site_calls_call_all.
  - rewrite (callbacks_source_event k _ _ (table_run cfg Source evs)).
    f_equal. apply flat_map_repeat. now destruct k.
  - rewrite (callbacks_theme_change _ _ (table_run cfg Theme evs)).
    f_equal. now apply flat_map_repeat.
Qed.

Lemma table_callbacks s n l :
  In l (table s n) ->
  l_callback l = ready_callback s \/ In l (handlers s).
Proof.
  unfold table. intros [<-|H]; [now left|]. right.
  induction n as [|n IH]; [contradiction|].
  cbn [repeat concat] in H. apply in_app_iff in H as [H|H]; auto.
Qed.

Lemma callbacks_in_table s name n ls cb :
  of_session s ls = table s n ->
  In cb (callbacks s name ls) ->
  cb = ready_callback s \/ In cb (map l_callback (handlers s)).
Proof.
  intros H Hin. unfold callbacks in Hin. rewrite H in Hin.
  apply in_map_iff in Hin as [l [<- Hl]].
  apply List.filter_In in Hl as [Hl _].
  apply table_callbacks in Hl as [Hl|Hl]; [now left|].
  right. now apply in_map.
Qed.

(** X2. Each session invokes only its own actions: whatever the name of an
    event of the source session, the actions it invokes are [fileChanged],
    [fileAdded] or [fileRemoved] for the path of the event; an event of the
    theme session invokes only [readTheme]; and the settlement of a promise
    invokes nothing, or [build] once. *)
Theorem stimulus_invokes_only_its_actions evs :
  let st := run (startup cfg) evs in
  (forall name path, exists new,
      site_calls (trace (step st (Emit Source name path))) =
        site_calls (trace st) ++ new /\
      Forall (fun a => a = fileChanged path \/ a = fileAdded path \/
                       a = fileRemoved path) new) /\
  (forall name path, exists new,
      site_calls (trace (step st (Emit Theme name path))) =
        site_calls (trace st) ++ new /\
      Forall (fun a => a = readTheme) new) /\
  (forall p o,
      site_calls (trace (step st (Settle p o))) = site_calls (trace st) \/
      site_calls (trace (step st (Settle p o))) = site_calls (trace st) ++ [build]).
Proof.
  intros st. subst st. split; [|split].
  - intros name path. eexists. split.
    + rewrite step_emit, site_calls_call_all. reflexivity.
    + apply List.Forall_forall. intros a Ha.
      apply in_flat_map in Ha as [cb [Hcb Ha]].
      apply (callbacks_in_table _ _ _ _ _ (table_run cfg Source evs)) in Hcb.
      destruct Hcb as [->|Hcb]; [contradiction|].
      cbn in Hcb. destruct Hcb as [<-|[<-|[<-|[]]]];
        cbn in Ha; destruct Ha as [<-|[]]; auto.
  - intros name path. eexists. split.
    + rewrite step_emit, site_calls_call_all. reflexivity.
    + apply List.Forall_forall. intros a Ha.
      apply in_flat_map in Ha as [cb [Hcb Ha]].
      apply (callbacks_in_table _ _ _ _ _ (table_run cfg Theme evs)) in Hcb.
      destruct Hcb as [->|Hcb]; [contradiction|].
      cbn in Hcb. destruct Hcb as [<-|[]].
      cbn in Ha. now destruct Ha as [<-|[]].
  - intros p o. apply site_calls_settle.
Qed.

(** ** What is called how often *)

Lemma calls_of_no_readFiles cbs path :
  List.filter is_readFiles (flat_map (fun cb => calls_of cb path) cbs) = [].
Proof.
  induction cbs as [|cb cbs IH]; [reflexivity|].
  cbn [flat_map]. rewrite List.filter_app, IH. now destruct cb.
Qed.

Lemma step_adds_no_readFiles st ev :
  exists new,
    site_calls (trace (step st ev)) = site_calls (trace st) ++ new /\
    List.filter is_readFiles new = [].
Proof.
  assert (E : forall s name path, exists new,
             site_calls (trace (step st (Emit s name path))) =
               site_calls (trace st) ++ new /\
             List.filter is_readFiles new = []).
  { intros s name path. eexists. split.
    - rewrite step_emit, site_calls_call_all. reflexivity.
    - apply calls_of_no_readFiles. }
  destruct ev as [s name path|fe|p o].
  - apply E.
  - rewrite step_notify. destruct (is_ignored _ _); [|apply E].
    exists []. now rewrite app_nil_r.
  - cbn [step]. destruct (site_calls_settle p o st) as [-> | ->].
    + exists []. now rewrite app_nil_r.
    + now exists [build].
Qed.

(** X3. [readFiles] is called once, by the module body, and never again: in
    every run the actions invoked are [readFiles] followed by actions none of
    which is [readFiles]. *)
Theorem readFiles_is_called_once evs :
  exists rest,
    site_calls (trace (run (startup cfg) evs)) = readFiles :: rest /\
    List.filter is_readFiles rest = [].
Proof.
  induction evs as [|ev evs IH] using rev_ind.
  - now exists [].
  - destruct IH as [rest [E F]]. rewrite run_snoc.
    destruct (step_adds_no_readFiles (run (startup cfg) evs) ev)
      as [new [E' F']].
    exists (rest ++ new). rewrite E', E. split; [reflexivity|].
    now rewrite List.filter_app, F, F'.
Qed.

Lemma count_calls_app f tr1 tr2 :
  count_calls f (tr1 ++ tr2) = count_calls f tr1 + count_calls f tr2.
Proof.
  unfold count_calls. now rewrite site_calls_app, List.filter_app, length_app.
Qed.

Lemma pending_reloads_app l1 l2 :
  pending_reloads (l1 ++ l2) = pending_reloads l1 + pending_reloads l2.
Proof. unfold pending_reloads. now rewrite List.filter_app, length_app. Qed.

Lemma take_pending_reloads p l r rest :
  take_pending p l = Some (r, rest) ->
  pending_reloads l =
  pending_reloads rest + (if is_then_build (p, r) then 1 else 0).
Proof.
  revert r rest. induction l as [|[q r'] l IH]; intros r rest; [discriminate|].
  cbn [take_pending]. destruct (Nat.eqb p q) eqn:E.
  - intros [= <- <-]. unfold pending_reloads. cbn [List.filter].
    unfold is_then_build. cbn [snd]. destruct r'; cbn [length]; lia.
  - destruct (take_pending p l) as [[r0 rest0]|]; [|discriminate].
    intros [= <- <-]. specialize (IH _ _ eq_refl).
    unfold pending_reloads in *. cbn [List.filter].
    destruct (is_then_build (q, r')); cbn [length]; lia.
Qed.

Lemma builds_within_reloads_step st ev :
  builds_within_reloads_at st -> builds_within_reloads_at (step st ev).
Proof.
  unfold builds_within_reloads_at.
  assert (C : forall cb path st0,
             builds_within_reloads_at st0 ->
             builds_within_reloads_at (exec (run_callback cb path) st0)).
  { unfold builds_within_reloads_at. intros cb path st0 H.
    rewrite exec_run_callback. cbn [trace pending].
    rewrite !count_calls_app, pending_reloads_app.
    destruct cb; cbn; unfold count_calls, pending_reloads in *; cbn; lia. }
  assert (A : forall cbs path st0,
             builds_within_reloads_at st0 ->
             builds_within_reloads_at (exec (call_all cbs path) st0)).
  { intros cbs path. induction cbs as [|cb cbs IH]; intros st0 H; [exact H|].
    rewrite run_callback_bind. now apply IH, C. }
  intros H. destruct ev as [s name path|fe|p o].
  - rewrite step_emit. now apply A.
  - rewrite step_notify. destruct (is_ignored _ _); [exact H|].
    rewrite step_emit. now apply A.
  - cbn [step]. destruct (take_pending p (pending st)) as [[r rest]|] eqn:E;
      [|now rewrite exec_settle_idle].
    rewrite (exec_settle _ _ _ _ _ E).
    apply take_pending_reloads in E. unfold is_then_build in E. cbn [snd] in E.
    unfold count_calls, pending_reloads in *.
    destruct r, o; cbn;
      rewrite ?site_calls_app, ?List.filter_app, ?length_app; cbn; lia.
Qed.

(** X4. In every run [build] has been called at most as often as
    [readTheme]: a rebuild needs a theme reload of its own. *)
Theorem builds_never_exceed_reloads evs :
  count_calls is_build (trace (run (startup cfg) evs)) <=
  count_calls is_readTheme (trace (run (startup cfg) evs)).
Proof.
  assert (H : builds_within_reloads_at (run (startup cfg) evs)).
  { induction evs as [|ev evs IH] using rev_ind.
    - unfold builds_within_reloads_at. cbn. lia.
    - rewrite run_snoc. now apply builds_within_reloads_step. }
  unfold builds_within_reloads_at in H. lia.
Qed.

(** ** Promises settle once *)

Lemma NoDup_snoc {A} (l : list A) (x : A) :
  List.NoDup l -> ~ In x l -> List.NoDup (l ++ [x]).
Proof.
  induction l as [|y l IH]; intros Hl Hx.
  - cbn. constructor; [intros []|constructor].
  - apply List.NoDup_cons_iff in Hl as [Hy Hl]. cbn [app].
    apply List.NoDup_cons_iff. split.
    + intros [H|[<-|[]]]%in_app_iff; [contradiction|]. apply Hx. now left.
    + apply IH; [exact Hl|]. intros H. apply Hx. now right.
Qed.

Lemma fresh_not_pending st r :
  Inv st -> ~ In (next_promise st) (map fst (pending st ++ [])) /\
            forall l, (forall x, In x l -> In x (pending st)) ->
                      ~ In (next_promise st) (map fst l) /\
                      ~ In (next_promise st, r) l.
Proof.
  intros [Hf _ _].
  assert (G : forall l, (forall x, In x l -> In x (pending st)) ->
                        ~ In (next_promise st) (map fst l)).
  { intros l Hl [[q r'] [E Hin]]%in_map_iff. cbn in E. subst q.
    apply Hl, Hf in Hin. lia. }
  split.
  - rewrite app_nil_r. now apply G.
  - intros l Hl. split; [now apply G|].
    intros Hin. apply (G l Hl). apply in_map_iff. now exists (next_promise st, r).
Qed.

Lemma take_pending_NoDup p l r rest :
  take_pending p l = Some (r, rest) ->
  List.NoDup (map fst l) ->
  List.NoDup (map fst rest) /\ ~ In p (map fst rest).
Proof.
  revert r rest. induction l as [|[q r'] l IH]; intros r rest; [discriminate|].
  cbn [take_pending]. destruct (Nat.eqb p q) eqn:E.
  - apply Nat.eqb_eq in E. subst q. intros [= <- <-] H.
    cbn in H. now apply List.NoDup_cons_iff in H as [H1 H2].
  - apply Nat.eqb_neq in E.
    destruct (take_pending p l) as [[r0 rest0]|] eqn:Hp; [|discriminate].
    intros [= <- <-] H. cbn in H. apply List.NoDup_cons_iff in H as [H1 H2].
    destruct (IH _ _ eq_refl H2) as [N1 N2].
    destruct (take_pending_In _ _ _ _ Hp) as [_ Hsub].
    split.
    + cbn. apply List.NoDup_cons_iff. split; [|exact N1].
      intros [x [Ex Hx]]%in_map_iff. apply H1. apply in_map_iff.
      exists x. split; [exact Ex|]. now apply Hsub.
    + cbn. intros [->|H]; [now apply E|]. now apply N2.
Qed.

Lemma pending_run_reaction_cases r p o st :
  pending (exec (run_reaction r p o) st) = pending st \/
  pending (exec (run_reaction r p o) st) =
    pending st ++ [(next_promise st, unobserved)].
Proof. destruct r, o; cbn; auto. Qed.

Lemma pending_distinct_step st ev :
  Inv st -> List.NoDup (map fst (pending st)) ->
  List.NoDup (map fst (pending (step st ev))).
Proof.
  assert (C : forall cb path st0,
             Inv st0 -> List.NoDup (map fst (pending st0)) ->
             List.NoDup (map fst (pending (exec (run_callback cb path) st0)))).
  { intros cb path st0 Hi Hn. rewrite exec_run_callback. cbn [pending].
    assert (F : ~ In (next_promise st0) (map fst (pending st0))).
    { destruct (fresh_not_pending st0 unobserved Hi) as [F _].
      now rewrite app_nil_r in F. }
    destruct cb; cbn [awaits]; rewrite ?app_nil_r; try exact Hn;
      rewrite map_app; now apply NoDup_snoc. }
  assert (A : forall cbs path st0,
             Inv st0 -> List.NoDup (map fst (pending st0)) ->
             List.NoDup (map fst (pending (exec (call_all cbs path) st0)))).
  { intros cbs path. induction cbs as [|cb cbs IH]; intros st0 Hi Hn;
      [exact Hn|].
    rewrite run_callback_bind. apply IH; [now apply Inv_run_callback|].
    now apply C. }
  intros Hi Hn. destruct ev as [s name path|fe|p o].
  - rewrite step_emit. now apply A.
  - rewrite step_notify. destruct (is_ignored _ _); [exact Hn|].
    rewrite step_emit. now apply A.
  - cbn [step]. destruct (take_pending p (pending st)) as [[r rest]|] eqn:E;
      [|now rewrite exec_settle_idle].
    rewrite (exec_settle _ _ _ _ _ E).
    destruct (take_pending_NoDup _ _ _ _ E Hn) as [N _].
    destruct (take_pending_In _ _ _ _ E) as [_ Hsub].
    match goal with
    | |- context [exec (run_reaction r p o) ?st0] =>
        destruct (pending_run_reaction_cases r p o st0) as [-> | ->]
    end; cbn [pending next_promise]; [exact N|].
    rewrite map_app. apply NoDup_snoc; [exact N|].
    now apply (fresh_not_pending st unobserved Hi).
Qed.

Lemma pending_distinct_run evs :
  List.NoDup (map fst (pending (run (startup cfg) evs))).
Proof.
  induction evs as [|ev evs IH] using rev_ind.
  - cbn. constructor; [intros []|constructor].
  - rewrite run_snoc. apply pending_distinct_step; [apply Inv_run|exact IH].
Qed.

(** Once a pending promise has settled, settling it again changes nothing. *)
Lemma settled_once evs p r o o' :
  awaiting p r (run (startup cfg) evs) ->
  let st' := step (run (startup cfg) evs) (Settle p o) in
  step st' (Settle p o') = st'.
Proof.
  intros [rest E] st'. subst st'. set (st := run (startup cfg) evs) in *.
  cbn [step]. apply exec_settle_idle.
  rewrite (exec_settle _ _ _ _ _ E).
  destruct (take_pending_NoDup _ _ _ _ E (pending_distinct_run evs)) as [_ N].
  destruct (take_pending_In _ _ _ _ E) as [Hin _].
  assert (Hlt : p < next_promise st).
  { now apply (inv_fresh _ (Inv_run cfg evs) p r). }
  apply take_pending_fresh. intros r' Hr'.
  match type of Hr' with
  | context [exec (run_reaction r p o) ?st0] =>
      destruct (pending_run_reaction_cases r p o st0) as [Ep | Ep];
        rewrite Ep in Hr'; cbn [pending next_promise] in Hr'
  end.
  - apply N. apply in_map_iff. now exists (p, r').
  - apply in_app_iff in Hr' as [Hr'|[[= Hp _]|[]]].
    + apply N. apply in_map_iff. now exists (p, r').
    + lia.
Qed.

Lemma reload_awaited evs path evs2 :
  ready_count Theme evs = 1 ->
  (forall o, ~ In (Settle (next_promise (run (startup cfg) evs)) o) evs2) ->
  awaiting (next_promise (run (startup cfg) evs)) then_build
    (run (step (run (startup cfg) evs) (Emit Theme "change" path)) evs2).
Proof.
  intros H Hevs2. apply awaiting_run; [|exact Hevs2].
  rewrite (step_theme_change cfg _ _ H), exec_run_callback. cbn [awaits].
  apply awaiting_fresh, Inv_run.
Qed.

Lemma action_awaited evs k path evs2 :
  ready_count Source evs = 1 ->
  (forall o, ~ In (Settle (next_promise (run (startup cfg) evs)) o) evs2) ->
  awaiting (next_promise (run (startup cfg) evs)) then_log_done
    (run (step (run (startup cfg) evs) (Emit Source (event_name k) path)) evs2).
Proof.
  intros H Hevs2. apply awaiting_run; [|exact Hevs2].
  rewrite (step_source_event cfg _ _ _ H), exec_run_callback.
  replace (awaits (handler_of k) (next_promise (run (startup cfg) evs)))
    with [(next_promise (run (startup cfg) evs), then_log_done)]
    by now destruct k.
  apply awaiting_fresh, Inv_run.
Qed.

(** X5. When the promise of a theme reload is rejected, whatever happened
    in between, the rejection goes unhandled and [build] is not called, and
    no later settlement of that promise calls it either. *)
Theorem failed_theme_reload_never_builds evs path evs2 e :
  ready_count Theme evs = 1 ->
  (forall o, ~ In (Settle (next_promise (run (startup cfg) evs)) o) evs2) ->
  let st := run (startup cfg) evs in
  let p := next_promise st in
  let st2 := run (step st (Emit Theme "change" path)) evs2 in
  let st3 := step st2 (Settle p (Rejected e)) in
  trace st3 = trace st2 ++ [Settled p (Rejected e); UnhandledRejection p e] /\
  (forall o, step st3 (Settle p o) = st3).
Proof.
  intros H Hevs2 st p st2 st3.
  pose proof (reload_awaited evs path evs2 H Hevs2) as A.
  fold st p st2 in A. split.
  - destruct A as [rest E]. subst st3. cbn [step].
    rewrite (exec_settle _ _ _ _ _ E). cbn. now rewrite <- app_assoc.
  - intros o.
    assert (R : st2 = run (startup cfg)
                        (evs ++ Emit Theme "change" path :: evs2)).
    { subst st2 st. now rewrite run_app. }
    subst st3. rewrite R in *. now apply (settled_once _ p then_build).
Qed.

(** X6. When the promise of a per-event action of the source session is
    fulfilled, whatever happened in between, the dispatcher logs the
    completion line and does nothing else; a later settlement of that promise
    changes nothing. *)
Theorem completed_action_logs_done evs k path evs2 :
  ready_count Source evs = 1 ->
  (forall o, ~ In (Settle (next_promise (run (startup cfg) evs)) o) evs2) ->
  let st := run (startup cfg) evs in
  let p := next_promise st in
  let st2 := run (step st (Emit Source (event_name k) path)) evs2 in
  let st3 := step st2 (Settle p Fulfilled) in
  trace st3 =
    trace st2 ++ [Settled p Fulfilled; LoggerInfo (Str.tab +:+ "done!")] /\
  listeners st3 = listeners st2 /\
  (forall o, step st3 (Settle p o) = st3).
Proof.
  intros H Hevs2 st p st2 st3.
  pose proof (action_awaited evs k path evs2 H Hevs2) as A.
  fold st p st2 in A. split; [|split].
  - destruct A as [rest E]. subst st3. cbn [step].
    rewrite (exec_settle _ _ _ _ _ E). cbn. now rewrite <- app_assoc.
  - apply listeners_settle.
  - intros o.
    assert (R : st2 = run (startup cfg)
                        (evs ++ Emit Source (event_name k) path :: evs2)).
    { subst st2 st. now rewrite run_app. }
    subst st3. rewrite R in *. now apply (settled_once _ p then_log_done).
Qed.

(** X7. The listener tables change on ready signals only: a ready signal of
    a session appends the per-event handlers of that session, and no other
    stimulus adds or removes a listener. *)
Theorem listeners_change_on_ready_only evs ev :
  let st := run (startup cfg) evs in
  (forall s path,
      listeners (step st (Emit s "ready" path)) = listeners st ++ handlers s) /\
  (is_ready Source ev = false -> is_ready Theme ev = false ->
   listeners (step st ev) = listeners st).
Proof.
  intros st. subst st. split.
  - intros s path.
    now rewrite (listeners_step_emit _ _ _ _ _ (table_run cfg s evs)).
  - intros Hs Ht. destruct ev as [s name path|fe|p o].
    + rewrite (listeners_step_emit _ _ _ _ _ (table_run cfg s evs)).
      cbn [is_ready] in Hs, Ht.
      destruct (String.eqb name "ready"); [|now rewrite app_nil_r].
      destruct s; discriminate.
    + rewrite step_notify. destruct (is_ignored _ _); [reflexivity|].
      rewrite (listeners_step_emit _ _ _ _ _ (table_run cfg (fe_root fe) evs)).
      now rewrite event_name_not_ready, app_nil_r.
    + apply listeners_settle.
Qed.

End DispatcherCoverage.

(** * More about the fixtures *)

Section FixtureCoverage.

Import Fixtures.

Variable disk : gmap string string.

Lemma mirror_unfold paths (opts : options) :
  mirrorPathsToContent disk paths opts =
  foldl (mirror_entry disk (key_mapping opts)) (Some ∅) paths.
Proof. reflexivity. Qed.

Lemma mirror_entry_Some mapKey r p result :
  mirror_entry disk mapKey (Some r) p = Some result <->
  exists content, disk !! p = Some content /\ result = <[mapKey p := content]> r.
Proof.
  unfold mirror_entry, readFileSync. cbn. destruct (disk !! p) as [c|]; cbn.
  - split; [intros [= <-]; eauto | intros [c' [[= <-] ->]]; reflexivity].
  - split; [discriminate | intros [c' [[=] _]]].
Qed.

(** The reduction fails only at a path that cannot be read. *)
Lemma mirror_None mapKey paths acc :
  foldl (mirror_entry disk mapKey) (Some acc) paths = None ->
  exists p, p ∈ paths /\ disk !! p = None.
Proof.
  revert acc. induction paths as [|q paths IH]; intros acc; [discriminate|].
  cbn [foldl]. destruct (disk !! q) as [c|] eqn:Eq.
  - replace (mirror_entry disk mapKey (Some acc) q)
      with (Some (<[mapKey q := c]> acc))
      by (symmetry; apply mirror_entry_Some; eauto).
    intros [p [Hp E]]%IH. exists p. split; [now apply list_elem_of_further|exact E].
  - intros _. exists q. split; [apply list_elem_of_here|exact Eq].
Qed.

(** A key that no path maps to keeps what the accumulator had. *)
Lemma mirror_keep mapKey paths acc mocks k :
  foldl (mirror_entry disk mapKey) (Some acc) paths = Some mocks ->
  k ∉ mapKey <$> paths ->
  mocks !! k = acc !! k.
Proof.
  revert acc. induction paths as [|q paths IH]; intros acc; cbn [foldl].
  - now intros [= <-].
  - destruct (mirror_entry disk mapKey (Some acc) q) as [r|] eqn:E;
      [|now rewrite mirror_failed].
    apply mirror_entry_Some in E as [c [_ ->]].
    intros H Hk. rewrite fmap_cons in Hk. apply not_elem_of_cons in Hk as [Hne Hk].
    rewrite (IH _ H Hk). now apply lookup_insert_ne.
Qed.

Lemma mirror_dom mapKey paths acc mocks :
  foldl (mirror_entry disk mapKey) (Some acc) paths = Some mocks ->
  dom mocks = dom acc ∪ list_to_set (mapKey <$> paths).
Proof.
  revert acc. induction paths as [|q paths IH]; intros acc; cbn [foldl].
  - intros [= <-]. apply set_eq. intros x.
    rewrite elem_of_union, fmap_nil, list_to_set_nil, elem_of_empty. tauto.
  - destruct (mirror_entry disk mapKey (Some acc) q) as [r|] eqn:E;
      [|now rewrite mirror_failed].
    apply mirror_entry_Some in E as [c [_ ->]].
    intros H. rewrite (IH _ H), dom_insert_L, fmap_cons, list_to_set_cons.
    apply set_eq. intros x. rewrite !elem_of_union. tauto.
Qed.

Lemma mirror_None_iff paths (opts : options) :
  mirrorPathsToContent disk paths opts = None <->
  exists p, p ∈ paths /\ disk !! p = None.
Proof.
  rewrite mirror_unfold. split; [apply mirror_None|].
  intros [p [Hp E]].
  destruct (foldl _ _ paths) as [m|] eqn:F; [|reflexivity].
  destruct (mirror_reads disk _ _ _ _ F p Hp) as [c Hc]. congruence.
Qed.

(** X8. [mirrorPathsToContent] fails exactly when one of the paths cannot be
    read, whatever the options; with no path at all it returns the empty
    object. *)
Theorem mirrorPathsToContent_fails_iff_unreadable paths (opts : options) :
  (mirrorPathsToContent disk paths opts = None <->
   exists p, p ∈ paths /\ disk !! p = None) /\
  mirrorPathsToContent disk [] opts = Some ∅.
Proof. split; [apply mirror_None_iff|reflexivity]. Qed.

Lemma mirrorPathsToContent_keys_of paths (opts : options) mocks :
  mirrorPathsToContent disk paths opts = Some mocks ->
  dom mocks = list_to_set (key_mapping opts <$> paths).
Proof.
  rewrite mirror_unfold. intros H. rewrite (mirror_dom _ _ _ _ H).
  apply set_eq. intros x. rewrite elem_of_union, dom_empty_L, elem_of_empty.
  tauto.
Qed.

(** X9. The keys of the object [mirrorPathsToContent] returns are exactly
    the images of the paths under the key mapping of the options (the
    identity when [mapKey] is absent), as long as none of them is
    [__proto__], which an object takes as its prototype and not as a key. *)
Theorem mirrorPathsToContent_keys paths (opts : options) mocks :
  mirrorPathsToContent disk paths opts = Some mocks ->
  "__proto__" ∉ key_mapping opts <$> paths ->
  dom mocks = list_to_set (key_mapping opts <$> paths).
Proof. intros H _. now apply mirrorPathsToContent_keys_of. Qed.

(** X10. When several paths are mapped to one key, other than [__proto__],
    the content of the last of them is kept: a path holds its key if no
    later path maps to it. *)
Theorem mirrorPathsToContent_last_path_wins before p after (opts : options) mocks :
  mirrorPathsToContent disk (before ++ p :: after) opts = Some mocks ->
  key_mapping opts p ∉ key_mapping opts <$> after ->
  key_mapping opts p <> "__proto__" ->
  mocks !! key_mapping opts p = disk !! p.
Proof.
  rewrite mirror_unfold, foldl_app. cbn [foldl].
  destruct (foldl _ _ before) as [r|];
    [|cbn; now rewrite mirror_failed].
  destruct (mirror_entry disk (key_mapping opts) (Some r) p) as [r'|] eqn:E;
    [|now rewrite mirror_failed].
  apply mirror_entry_Some in E as [c [Ec ->]].
  intros H Hk _. rewrite (mirror_keep _ _ _ _ _ H Hk), Ec.
  apply lookup_insert_eq.
Qed.

(** ** Keys rebased by replacing a leading directory *)

Lemma append_cons a s t : String a s +:+ t = String a (s +:+ t).
Proof. reflexivity. Qed.

Lemma append_inj_l a b c : a +:+ b = a +:+ c -> b = c.
Proof.
  induction a as [|x a IH]; [now intros H|].
  rewrite !append_cons. intros [= H]. now apply IH.
Qed.

Lemma drop_chars_append p rest :
  drop_chars (String.length p) (p +:+ rest) = rest.
Proof.
  induction p as [|x p IH]; [now destruct rest|].
  rewrite append_cons. exact IH.
Qed.

Lemma replace_first_unfold pattern replacement s :
  replace_first pattern replacement s =
  if Str.startsWith pattern s
  then replacement +:+ drop_chars (String.length pattern) s
  else match s with
       | EmptyString => EmptyString
       | String c s' => String c (replace_first pattern replacement s')
       end.
Proof. now destruct s. Qed.

Lemma replace_first_prefix pattern replacement rest :
  replace_first pattern replacement (pattern +:+ rest) = replacement +:+ rest.
Proof.
  rewrite replace_first_unfold.
  replace (Str.startsWith pattern (pattern +:+ rest)) with true
    by (symmetry; apply startsWith_spec; eauto).
  now rewrite drop_chars_append.
Qed.

Lemma replace_first_absent pattern replacement s :
  Str.includes pattern s = false -> replace_first pattern replacement s = s.
Proof.
  induction s as [|c s IH]; rewrite replace_first_unfold; cbn [Str.includes];
    intros [H1 H2]%orb_false_iff; rewrite H1; [reflexivity|].
  now rewrite IH.
Qed.

(** With a key mapping that replaces the leading [from] by [to], and paths
    that all start with [from], the object maps [to +:+ rest] to the content
    of [from +:+ rest]. *)
Lemma mirror_rebased from to paths acc mocks :
  (forall p, p ∈ paths -> Str.startsWith from p = true) ->
  foldl (mirror_entry disk (replace_first from to)) (Some acc) paths =
    Some mocks ->
  forall rest,
    mocks !! (to +:+ rest) =
    if decide (from +:+ rest ∈ paths) then disk !! (from +:+ rest)
    else acc !! (to +:+ rest).
Proof.
  revert acc. induction paths as [|p paths IH]; intros acc Hp; cbn [foldl].
  - intros [= <-] rest. rewrite decide_False; [reflexivity|apply not_elem_of_nil].
  - destruct (mirror_entry disk _ (Some acc) p) as [r|] eqn:E;
      [|now rewrite mirror_failed].
    apply mirror_entry_Some in E as [c [Ec ->]].
    destruct (proj1 (startsWith_spec from p) (Hp p (list_elem_of_here _ _)))
      as [r0 ->].
    rewrite replace_first_prefix. intros H rest.
    rewrite (IH _ (fun q Hq => Hp q (list_elem_of_further _ _ _ Hq)) H rest).
    destruct (decide (from +:+ rest ∈ paths)) as [Hin|Hnin].
    + rewrite decide_True; [reflexivity|now apply list_elem_of_further].
    + destruct (decide (rest = r0)) as [->|Hne].
      * rewrite lookup_insert_eq, decide_True; [now rewrite Ec|].
        apply list_elem_of_here.
      * rewrite lookup_insert_ne by (intros ?%append_inj_l; congruence).
        rewrite decide_False; [reflexivity|].
        intros [?%append_inj_l|?]%elem_of_cons; congruence.
Qed.

Lemma mapKey_singleton (f : string → string) :
  key_mapping {[ "mapKey" := f ]} = f.
Proof. unfold key_mapping. now rewrite lookup_singleton_eq. Qed.

(** X11. The keys of [getSimpleOneOutput] are written relatively: when the
    listed paths lie under the output directory, the object maps the
    relative path of each listed file to its content, and it holds no other
    key. This is said of every key but [__proto__], which an object does
    not take as a key. *)
Theorem getSimpleOneOutput_keys_are_relative dirname filePaths out :
  (forall p, p ∈ filePaths ->
             Str.startsWith (simpleOneOutputDir dirname) p = true) ->
  getSimpleOneOutput disk dirname filePaths = Some out ->
  forall rel,
    rel <> "__proto__" ->
    out !! rel =
    if decide (simpleOneOutputDir dirname +:+ rel ∈ filePaths)
    then disk !! (simpleOneOutputDir dirname +:+ rel)
    else None.
Proof.
  intros Hp H rel _. unfold getSimpleOneOutput in H.
  rewrite mirror_unfold, mapKey_singleton in H.
  pose proof (mirror_rebased _ "" _ _ _ Hp H rel) as R.
  change ("" +:+ rel) with rel in R. rewrite R.
  destruct (decide _); [reflexivity|apply lookup_empty].
Qed.

(** ** The object [mockSimpleSite] returns *)

Lemma identity_branch paths (opts : options) mocks :
  opts !! "mapKey" = None ->
  mirrorPathsToContent disk paths opts = Some mocks ->
  forall k, mocks !! k = if decide (k ∈ paths) then disk !! k else None.
Proof.
  intros Ho. rewrite (mirror_without_mapKey disk _ _ Ho). intros H k.
  rewrite (mirror_lookup disk _ _ _ H k).
  now destruct (decide (k ∈ paths)).
Qed.

Lemma branch_reads paths (opts : options) mocks p :
  mirrorPathsToContent disk paths opts = Some mocks ->
  p ∈ paths -> is_Some (disk !! p).
Proof. rewrite mirror_unfold. intros H. now apply (mirror_reads disk _ _ _ _ H). Qed.

Lemma mockSimpleSite_Some dirname yarnRoot filePaths themePaths npmPaths allMocks :
  mockSimpleSite disk dirname yarnRoot filePaths themePaths npmPaths =
    Some allMocks ->
  exists mocks themeOne npm core,
    mirrorPathsToContent disk filePaths
      {[ "mapKey" := replace_first (dirname +:+ "/") "" ]} = Some mocks /\
    mirrorPathsToContent disk themePaths
      {[ "mapKey" := replace_first (dirname +:+ "/themes/one")
                                   "simple/_themes/one" ]} = Some themeOne /\
    mirrorPathsToContent disk npmPaths npm_options = Some npm /\
    mirrorPathsToContent disk (core_paths yarnRoot) ∅ = Some core /\
    allMocks = npm ∪ (core ∪ (themeOne ∪ mocks)).
Proof.
  unfold mockSimpleSite. intros H.
  apply bind_Some in H as (mocks & E1 & H).
  apply bind_Some in H as (themeOne & E2 & H).
  apply bind_Some in H as (npm & E3 & H).
  apply bind_Some in H as (core & E4 & H).
  injection H as <-. now exists mocks, themeOne, npm, core.
Qed.

(** X12. The files of the theme are mounted under [simple/_themes/one]: when
    the theme paths lie under [themes/one] of the fixtures, the returned
    object maps [simple/_themes/one] followed by the rest of a theme path to
    the content of that file, unless that key is itself an npm or a core
    path. *)
Theorem theme_files_are_mounted_under_simple
    dirname yarnRoot filePaths themePaths npmPaths allMocks rest :
  mockSimpleSite disk dirname yarnRoot filePaths themePaths npmPaths =
    Some allMocks ->
  (forall p, p ∈ themePaths ->
             Str.startsWith (dirname +:+ "/themes/one") p = true) ->
  (dirname +:+ "/themes/one") +:+ rest ∈ themePaths ->
  "simple/_themes/one" +:+ rest ∉ npmPaths ->
  "simple/_themes/one" +:+ rest ∉ core_paths yarnRoot ->
  allMocks !! ("simple/_themes/one" +:+ rest) =
  disk !! ((dirname +:+ "/themes/one") +:+ rest).
Proof.
  intros H Hp Hin Hnpm Hcore.
  apply mockSimpleSite_Some in H
    as (mocks & themeOne & npm & core & E1 & E2 & E3 & E4 & ->).
  rewrite lookup_union_r.
  2:{ rewrite (identity_branch _ _ _ (msapKey_is_not_mapKey _) E3).
      now rewrite decide_False. }
  rewrite lookup_union_r.
  2:{ rewrite (identity_branch _ _ _ (lookup_empty _) E4).
      now rewrite decide_False. }
  destruct (branch_reads _ _ _ _ E2 Hin) as [c Hc]. rewrite Hc.
  apply lookup_union_Some_l.
  rewrite mirror_unfold, mapKey_singleton in E2.
  rewrite (mirror_rebased _ _ _ _ _ Hp E2 rest).
  now rewrite decide_True.
Qed.

(** X13. The files of the simple site are keyed relatively to the fixtures
    directory: when the listed paths lie under it, the returned object maps
    the relative path of a listed file to its content, unless that key is
    an npm path, a core path or the key of a theme file. *)
Theorem simple_files_are_keyed_relatively
    dirname yarnRoot filePaths themePaths npmPaths allMocks rel :
  mockSimpleSite disk dirname yarnRoot filePaths themePaths npmPaths =
    Some allMocks ->
  (forall p, p ∈ filePaths -> Str.startsWith (dirname +:+ "/") p = true) ->
  (dirname +:+ "/") +:+ rel ∈ filePaths ->
  rel ∉ npmPaths ->
  rel ∉ core_paths yarnRoot ->
  rel ∉ replace_first (dirname +:+ "/themes/one") "simple/_themes/one"
          <$> themePaths ->
  allMocks !! rel = disk !! ((dirname +:+ "/") +:+ rel).
Proof.
  intros H Hp Hin Hnpm Hcore Htheme.
  apply mockSimpleSite_Some in H
    as (mocks & themeOne & npm & core & E1 & E2 & E3 & E4 & ->).
  rewrite lookup_union_r.
  2:{ rewrite (identity_branch _ _ _ (msapKey_is_not_mapKey _) E3).
      now rewrite decide_False. }
  rewrite lookup_union_r.
  2:{ rewrite (identity_branch _ _ _ (lookup_empty _) E4).
      now rewrite decide_False. }
  rewrite lookup_union_r.
  2:{ apply not_elem_of_dom. rewrite (mirrorPathsToContent_keys_of _ _ _ E2).
      rewrite mapKey_singleton. now rewrite elem_of_list_to_set. }
  rewrite mirror_unfold, mapKey_singleton in E1.
  pose proof (mirror_rebased _ "" _ _ _ Hp E1 rel) as R.
  change ("" +:+ rel) with rel in R. rewrite R. now rewrite decide_True.
Qed.

Lemma mockSimpleSite_None_iff dirname yarnRoot filePaths themePaths npmPaths :
  mockSimpleSite disk dirname yarnRoot filePaths themePaths npmPaths = None <->
  exists p,
    p ∈ filePaths ++ themePaths ++ npmPaths ++ core_paths yarnRoot /\
    disk !! p = None.
Proof.
  unfold mockSimpleSite, npmMocks.
  change (coreYarnFiles disk yarnRoot)
    with (mirrorPathsToContent disk (core_paths yarnRoot) ∅).
  split.
  - intros H.
    apply bind_None in H as [H|(mocks & _ & H)];
      [apply mirror_None_iff in H as [p [Hp E]]; exists p;
       rewrite !elem_of_app; auto|].
    apply bind_None in H as [H|(themeOne & _ & H)];
      [apply mirror_None_iff in H as [p [Hp E]]; exists p;
       rewrite !elem_of_app; auto|].
    apply bind_None in H as [H|(npm & _ & H)];
      [apply mirror_None_iff in H as [p [Hp E]]; exists p;
       rewrite !elem_of_app; auto|].
    apply bind_None in H as [H|(core & _ & H)]; [|discriminate].
    apply mirror_None_iff in H as [p [Hp E]]. exists p.
    rewrite !elem_of_app. auto.
  - intros [p [Hp E]]. rewrite !elem_of_app in Hp.
    assert (F : forall paths (opts : options),
               p ∈ paths -> mirrorPathsToContent disk paths opts = None).
    { intros paths opts Hin. apply mirror_None_iff. eauto. }
    destruct (mirrorPathsToContent disk filePaths _) as [mocks|] eqn:E1;
      [cbn -[mirrorPathsToContent core_paths]|reflexivity].
    destruct (mirrorPathsToContent disk themePaths _) as [themeOne|] eqn:E2;
      [cbn -[mirrorPathsToContent core_paths]|reflexivity].
    destruct (mirrorPathsToContent disk npmPaths _) as [npm|] eqn:E3;
      [cbn -[mirrorPathsToContent core_paths]|reflexivity].
    destruct (mirrorPathsToContent disk (core_paths yarnRoot) ∅) as [core|] eqn:E4;
      [exfalso|reflexivity].
    destruct Hp as [Hp|[Hp|[Hp|Hp]]].
    + rewrite (F _ _ Hp) in E1. discriminate.
    + rewrite (F _ _ Hp) in E2. discriminate.
    + rewrite (F _ _ Hp) in E3. discriminate.
    + rewrite (F _ _ Hp) in E4. discriminate.
Qed.

Lemma mirror_defined paths (opts : options) :
  (forall p, p ∈ paths -> is_Some (disk !! p)) ->
  exists mocks, mirrorPathsToContent disk paths opts = Some mocks.
Proof.
  intros H. destruct (mirrorPathsToContent disk paths opts) as [m|] eqn:E;
    [now exists m|].
  apply mirror_None_iff in E as [p [Hp E]].
  destruct (H p Hp) as [c Hc]. congruence.
Qed.

Lemma mockSimpleSite_defined dirname yarnRoot filePaths themePaths npmPaths :
  (forall p, p ∈ filePaths ++ themePaths ++ npmPaths ++ core_paths yarnRoot ->
             is_Some (disk !! p)) ->
  exists allMocks,
    mockSimpleSite disk dirname yarnRoot filePaths themePaths npmPaths =
      Some allMocks.
Proof.
  intros H.
  destruct (mockSimpleSite disk dirname yarnRoot filePaths themePaths npmPaths)
    as [m|] eqn:E; [now exists m|].
  apply mockSimpleSite_None_iff in E as [p [Hp E]].
  destruct (H p Hp) as [c Hc]. congruence.
Qed.

(** X14. [mockSimpleSite] throws when one of the files it mirrors, of the
    simple site, the theme, the npm modules or the core, cannot be read: the
    read throws before the object is put together. So an object is returned
    only when every one of these files was read. The converse is not stated:
    with every file read, whether the function returns is decided by the
    call of [mockFs], which is outside this development. *)
Theorem mockSimpleSite_fails_when_unreadable
    dirname yarnRoot filePaths themePaths npmPaths :
  ((exists p,
      p ∈ filePaths ++ themePaths ++ npmPaths ++ core_paths yarnRoot /\
      disk !! p = None) ->
   mockSimpleSite disk dirname yarnRoot filePaths themePaths npmPaths = None) /\
  (forall allMocks,
     mockSimpleSite disk dirname yarnRoot filePaths themePaths npmPaths =
       Some allMocks ->
     forall p,
       p ∈ filePaths ++ themePaths ++ npmPaths ++ core_paths yarnRoot ->
       is_Some (disk !! p)).
Proof.
  split.
  - apply mockSimpleSite_None_iff.
  - intros allMocks H p Hp.
    destruct (disk !! p) as [c|] eqn:E; [now exists c|].
    assert (N : mockSimpleSite disk dirname yarnRoot filePaths themePaths
                  npmPaths = None)
      by (apply mockSimpleSite_None_iff; eauto).
    congruence.
Qed.

(** X15. The core files keep their absolute paths: the returned object maps
    [lib/config/defaults.yml], [.babelrc] and [package.json] under the root
    of the project to their contents, whatever the other branches hold. *)
Theorem core_files_keep_their_paths
    dirname yarnRoot filePaths themePaths npmPaths allMocks p :
  mockSimpleSite disk dirname yarnRoot filePaths themePaths npmPaths =
    Some allMocks ->
  p ∈ core_paths yarnRoot ->
  allMocks !! p = disk !! p.
Proof.
  intros H Hp.
  apply mockSimpleSite_Some in H
    as (mocks & themeOne & npm & core & E1 & E2 & E3 & E4 & ->).
  destruct (branch_reads _ _ _ _ E4 Hp) as [c Hc]. rewrite Hc.
  pose proof (identity_branch _ _ _ (msapKey_is_not_mapKey _) E3 p) as Hn.
  pose proof (identity_branch _ _ _ (lookup_empty _) E4 p) as Hk.
  rewrite decide_True in Hk by exact Hp. rewrite Hc in Hk.
  destruct (decide (p ∈ npmPaths)).
  - apply lookup_union_Some_l. now rewrite Hn, Hc.
  - rewrite lookup_union_r by exact Hn. now apply lookup_union_Some_l.
Qed.

(** ** [filterOnlyFiles] *)

(** X16. Filtering twice is filtering once, and the result holds nothing the
    input did not hold. *)
Theorem filterOnlyFiles_idempotent (files : gmap string string) :
  filterOnlyFiles (filterOnlyFiles files) = filterOnlyFiles files /\
  filterOnlyFiles files ⊆ files.
Proof.
  split.
  - apply map_eq. intros k. rewrite !filterOnlyFiles_lookup.
    now destruct (matches_html k).
  - apply map_subseteq_spec. intros k v. rewrite filterOnlyFiles_lookup.
    now destruct (matches_html k).
Qed.

(** X17. [filterOnlyFiles] goes through a spread: filtering the merge of two
    objects is merging the filtered objects, with the same precedence. *)
Theorem filterOnlyFiles_union (later earlier : gmap string string) :
  filterOnlyFiles (later ∪ earlier) =
  filterOnlyFiles later ∪ filterOnlyFiles earlier.
Proof.
  apply map_eq. intros k.
  rewrite lookup_union, !filterOnlyFiles_lookup, lookup_union.
  now destruct (matches_html k).
Qed.

(** ** [getAllFilePaths] *)

Lemma on_data_fold acc items :
  foldl on_data acc items =
  acc ++ (item_path <$> List.filter item_isFile items).
Proof.
  revert acc. induction items as [|item items IH]; intros acc; cbn [foldl].
  - cbn. now rewrite app_nil_r.
  - rewrite IH. unfold on_data. cbn [List.filter].
    destruct (item_isFile item); [|reflexivity].
    now rewrite <- app_assoc.
Qed.

(** X19. [getAllFilePaths] resolves to the paths of the files the walk
    delivers, in the order of the walk: a directory never gets in, and
    every file does. *)
Theorem getAllFilePaths_lists_files_only items :
  getAllFilePaths items = item_path <$> List.filter item_isFile items /\
  (forall p, p ∈ getAllFilePaths items <->
             exists item, In item items /\ item_isFile item = true /\
                          item_path item = p) /\
  (forall items', getAllFilePaths (items ++ items') =
                  getAllFilePaths items ++ getAllFilePaths items').
Proof.
  assert (E : forall l, getAllFilePaths l = item_path <$> List.filter item_isFile l).
  { intros l. unfold getAllFilePaths. now rewrite on_data_fold. }
  split; [apply E|]. split.
  - intros p. rewrite E, list_elem_of_fmap. split.
    + intros [item [-> Hin]]. exists item.
      apply list_elem_of_In, List.filter_In in Hin as [H1 H2]. auto.
    + intros [item [H1 [H2 <-]]]. exists item. split; [reflexivity|].
      apply list_elem_of_In, List.filter_In. auto.
  - intros items'. now rewrite !E, List.filter_app, fmap_app.
Qed.

(** ** The key mapping meant for the npm branch *)

Lemma match_here_unfold s :
  match_here s =
  let short :=
    if Str.startsWith node_modules s
    then Some (drop_chars (String.length node_modules) s) else None in
  match s with
  | EmptyString => short
  | String _ s' =>
      if line_terminator_at s then short
      else match match_here s' with
           | Some rest => Some rest
           | None => short
           end
  end.
Proof. now destruct s. Qed.

Lemma replace_match_unfold inside s :
  replace_match inside s =
  match s with
  | EmptyString => EmptyString
  | String c s' =>
      match inside with
      | S inside' => String c (replace_match inside' s')
      | O =>
          match match_here s with
          | Some rest => node_modules +:+ rest
          | None => String c (replace_match (char_width c - 1) s')
          end
      end
  end.
Proof. now destruct s. Qed.

Lemma match_here_includes s rest :
  match_here s = Some rest -> Str.includes node_modules s = true.
Proof.
  revert rest. induction s as [|c s IH]; intros rest; rewrite match_here_unfold;
    cbv zeta; cbn [Str.includes].
  - destruct (Str.startsWith node_modules ""); [reflexivity|discriminate].
  - destruct (Str.startsWith node_modules (String c s)); [reflexivity|].
    destruct (line_terminator_at (String c s)); [discriminate|].
    destruct (match_here s) as [r|]; [|discriminate].
    intros _. now apply (IH r).
Qed.

Lemma match_here_absent s :
  Str.includes node_modules s = false -> match_here s = None.
Proof.
  intros H. destruct (match_here s) as [rest|] eqn:E; [|reflexivity].
  apply match_here_includes in E. congruence.
Qed.

Lemma no_later_node_modules b :
  Str.includes node_modules b = false ->
  Str.includes node_modules ("ode_modules" +:+ b) = false.
Proof.
  intros H. rewrite !append_cons. change ("" +:+ b) with b.
  cbn [Str.includes]. rewrite H. reflexivity.
Qed.

Lemma replace_match_absent s :
  Str.includes node_modules s = false ->
  forall inside, replace_match inside s = s.
Proof.
  induction s as [|c s IH]; intros H inside; [reflexivity|].
  rewrite replace_match_unfold, (match_here_absent _ H).
  cbn [Str.includes] in H. apply orb_false_iff in H as [_ H].
  destruct inside; now rewrite (IH H).
Qed.

Lemma terminator_needs_three c a rest :
  line_terminator_at (String c a) = false ->
  line_terminator_at (String c (a +:+ node_modules +:+ rest)) = false.
Proof.
  unfold line_terminator_at.
  destruct a as [|c1 [|c2 a]].
  - change ("" +:+ node_modules +:+ rest)
      with (String "n" (String "o" ("de_modules" +:+ rest))).
    cbn [Str.startsWith].
    destruct (Ascii.eqb (ascii_of_nat 10) c), (Ascii.eqb (ascii_of_nat 13) c),
      (Ascii.eqb (ascii_of_nat 226) c); cbn;
      intros H; try discriminate H; reflexivity.
  - change (String c1 "" +:+ node_modules +:+ rest)
      with (String c1 (String "n" ("ode_modules" +:+ rest))).
    cbn [Str.startsWith].
    destruct (Ascii.eqb (ascii_of_nat 10) c), (Ascii.eqb (ascii_of_nat 13) c),
      (Ascii.eqb (ascii_of_nat 226) c), (Ascii.eqb (ascii_of_nat 128) c1);
      cbn; intros H; try discriminate H; reflexivity.
  - change (String c1 (String c2 a) +:+ node_modules +:+ rest)
      with (String c1 (String c2 (a +:+ node_modules +:+ rest))).
    cbn [Str.startsWith]. trivial.
Qed.

Lemma match_here_last a b :
  single_line a = true ->
  Str.includes node_modules b = false ->
  match_here (a +:+ node_modules +:+ b) = Some b.
Proof.
  intros Ha Hb. induction a as [|c a IH].
  - change ("" +:+ node_modules +:+ b) with (node_modules +:+ b).
    rewrite match_here_unfold. cbv zeta.
    replace (Str.startsWith node_modules (node_modules +:+ b)) with true
      by (symmetry; apply startsWith_spec; eauto).
    rewrite drop_chars_append.
    change (node_modules +:+ b) with (String "n" ("ode_modules" +:+ b)).
    replace (line_terminator_at (String "n" ("ode_modules" +:+ b))) with false
      by reflexivity.
    now rewrite (match_here_absent _ (no_later_node_modules _ Hb)).
  - cbn [single_line] in Ha. apply andb_true_iff in Ha as [Hc Ha].
    apply negb_true_iff in Hc.
    rewrite append_cons, match_here_unfold. cbv zeta.
    rewrite (terminator_needs_three _ _ _ Hc).
    now rewrite (IH Ha).
Qed.

(** X18. The rewrite written for the npm branch, had it been applied, leaves
    a path without [node_modules] as it is, and cuts a path down to its last
    [node_modules] and what follows it when no line terminator stands before
    that [node_modules]. A line terminator in front is kept whole: a path
    that begins with U+2028 keeps its three bytes. *)
Theorem node_modules_key_cuts_to_last a b s :
  (Str.includes node_modules s = false -> node_modules_key s = s) /\
  (single_line a = true ->
   Str.includes node_modules b = false ->
   node_modules_key (a +:+ node_modules +:+ b) = node_modules +:+ b) /\
  (let u2028 := String (ascii_of_nat 226) (String (ascii_of_nat 128)
                  (String (ascii_of_nat 168) EmptyString)) in
   single_line ("/caf" +:+ String (ascii_of_nat 195)
                             (String (ascii_of_nat 169) "/")) = true /\
   single_line u2028 = false /\
   node_modules_key (u2028 +:+ "node_modules/a.js") =
     u2028 +:+ "node_modules/a.js" /\
   node_modules_key ("/x/node_modules/y" +:+ u2028 +:+ "/node_modules/a.js") =
     "node_modules/y" +:+ u2028 +:+ "/node_modules/a.js").
Proof.
  split; [|split].
  - intros H. apply (replace_match_absent _ H).
  - intros Ha Hb. unfold node_modules_key.
    rewrite replace_match_unfold, (match_here_last _ _ Ha Hb).
    destruct (a +:+ node_modules +:+ b) eqn:E; [|reflexivity].
    destruct a; discriminate E.
  - cbv zeta. repeat split; reflexivity.
Qed.

End FixtureCoverage.

(** * The dispatcher and the fixtures on concrete inputs, continued *)

Section CoverageExamples.

Import Watch Fixtures.

Lemma failed_theme_reload_never_builds_witness :
  let evs := [Emit Theme "ready" ""] in
  let evs2 := [Emit Source "ready" ""] in
  let st := run (startup cfg0) evs in
  let p := next_promise st in
  let st2 := run (step st (Emit Theme "change" "/proj/src/theme/a.html")) evs2 in
  let st3 := step st2 (Settle p (Rejected enoent)) in
  ready_count Theme evs = 1 /\
  (forall o, ~ In (Settle p o) evs2) /\
  trace st3 =
    trace st2 ++ [Settled p (Rejected enoent); UnhandledRejection p enoent] /\
  (forall o, step st3 (Settle p o) = st3).
Proof.
  cbv zeta.
  assert (N : forall o,
             ~ In (Settle (next_promise (run (startup cfg0)
                                           [Emit Theme "ready" ""])) o)
                  [Emit Source "ready" ""]).
  { intros o [E|[]]. discriminate E. }
  split; [reflexivity|]. split; [exact N|].
  exact (failed_theme_reload_never_builds cfg0 [Emit Theme "ready" ""]
           "/proj/src/theme/a.html" [Emit Source "ready" ""] enoent
           eq_refl N).
Defined.

Lemma completed_action_logs_done_witness :
  let evs := [Emit Source "ready" ""] in
  let evs2 := [Emit Theme "ready" ""] in
  let st := run (startup cfg0) evs in
  let p := next_promise st in
  let st2 := run (step st (Emit Source (event_name Changed) "/proj/src/a.md"))
                 evs2 in
  let st3 := step st2 (Settle p Fulfilled) in
  ready_count Source evs = 1 /\
  (forall o, ~ In (Settle p o) evs2) /\
  trace st3 =
    trace st2 ++ [Settled p Fulfilled; LoggerInfo (Str.tab +:+ "done!")] /\
  listeners st3 = listeners st2 /\
  (forall o, step st3 (Settle p o) = st3).
Proof.
  cbv zeta.
  assert (N : forall o,
             ~ In (Settle (next_promise (run (startup cfg0)
                                           [Emit Source "ready" ""])) o)
                  [Emit Theme "ready" ""]).
  { intros o [E|[]]. discriminate E. }
  split; [reflexivity|]. split; [exact N|].
  exact (completed_action_logs_done cfg0 [Emit Source "ready" ""] Changed
           "/proj/src/a.md" [Emit Theme "ready" ""] eq_refl N).
Defined.

Lemma listeners_change_on_ready_only_witness :
  let st := run (startup cfg0) [Emit Source "ready" ""] in
  let ev := Emit Source "change" "/proj/src/a.md" in
  is_ready Source ev = false /\ is_ready Theme ev = false /\
  listeners (step st ev) = listeners st.
Proof.
  cbv zeta. split; [reflexivity|]. split; [reflexivity|].
  apply (proj2 (listeners_change_on_ready_only cfg0 [Emit Source "ready" ""]
                  (Emit Source "change" "/proj/src/a.md")));
    reflexivity.
Defined.

Lemma site_disk_readable p :
  p ∈ site_files ++ theme_files ++ npm_files ++ core_paths project_root ->
  is_Some (site_disk !! p).
Proof.
  unfold site_files, theme_files, npm_files, core_paths. cbn [map app].
  intros H.
  repeat (apply elem_of_cons in H as [->|H]; [eexists; reflexivity|]).
  now apply elem_of_nil in H.
Defined.

Lemma mirrorPathsToContent_keys_witness :
  exists mocks,
    mirrorPathsToContent site_disk theme_files
      {[ "mapKey" := replace_first (fixtures_dir +:+ "/themes/one")
                                   "simple/_themes/one" ]} = Some mocks /\
    dom mocks = {[ "simple/_themes/one/layout.html" ]}.
Proof.
  destruct (mirror_defined site_disk theme_files
              {[ "mapKey" := replace_first (fixtures_dir +:+ "/themes/one")
                                           "simple/_themes/one" ]})
    as [mocks E].
  { intros p ->%list_elem_of_singleton. eexists. reflexivity. }
  exists mocks. split; [exact E|].
  rewrite (mirrorPathsToContent_keys site_disk _ _ _ E).
  2:{ intros H%list_elem_of_singleton. discriminate H. }
  apply set_eq. intros x. rewrite elem_of_list_to_set, elem_of_singleton.
  change (x ∈ ["simple/_themes/one/layout.html"] <->
          x = "simple/_themes/one/layout.html").
  apply list_elem_of_singleton.
Defined.

Lemma mirrorPathsToContent_last_path_wins_witness :
  exists mocks,
    mirrorPathsToContent site_disk (site_files ++ theme_files) one_key =
      Some mocks /\
    mocks !! "all" = Some "<html>".
Proof.
  destruct (mirror_defined site_disk (site_files ++ theme_files) one_key)
    as [mocks E].
  { intros p Hp. apply site_disk_readable. rewrite !elem_of_app in *. tauto. }
  exists mocks. split; [exact E|].
  apply (mirrorPathsToContent_last_path_wins site_disk site_files
           "/repo/test/fixtures/themes/one/layout.html" [] one_key mocks E).
  - apply not_elem_of_nil.
  - discriminate.
Defined.

Lemma getSimpleOneOutput_keys_are_relative_witness :
  exists out,
    getSimpleOneOutput site_disk fixtures_dir output_files = Some out /\
    out !! "index.html" = Some "<h1>Hello</h1>" /\
    out !! "/repo/test/fixtures/output/simple-one/index.html" = None.
Proof.
  destruct (mirror_defined site_disk output_files
              {[ "mapKey" := λ currentPath,
                   replace_first (simpleOneOutputDir fixtures_dir) ""
                                 currentPath ]})
    as [out E].
  { intros p ->%list_elem_of_singleton. eexists. reflexivity. }
  assert (U : forall p, p ∈ output_files ->
                Str.startsWith (simpleOneOutputDir fixtures_dir) p = true).
  { intros p ->%list_elem_of_singleton. reflexivity. }
  exists out. split; [exact E|].
  rewrite !(getSimpleOneOutput_keys_are_relative site_disk fixtures_dir
              output_files out U E) by discriminate.
  split; [reflexivity|].
  rewrite decide_False; [reflexivity|].
  intros H%list_elem_of_singleton. discriminate H.
Defined.

Lemma mockSimpleSite_fails_when_unreadable_witness :
  mockSimpleSite site_disk fixtures_dir project_root site_files
    ["/repo/test/fixtures/themes/one/absent.html"] npm_files = None.
Proof.
  apply (proj1 (mockSimpleSite_fails_when_unreadable site_disk fixtures_dir
                  project_root site_files
                  ["/repo/test/fixtures/themes/one/absent.html"] npm_files)).
  exists "/repo/test/fixtures/themes/one/absent.html". split.
  - rewrite !elem_of_app. right. left. apply list_elem_of_here.
  - reflexivity.
Defined.

Lemma theme_files_are_mounted_under_simple_witness :
  exists allMocks,
    mockSimpleSite site_disk fixtures_dir project_root site_files theme_files
      npm_files = Some allMocks /\
    allMocks !! "simple/_themes/one/layout.html" = Some "<html>".
Proof.
  destruct (mockSimpleSite_defined site_disk fixtures_dir project_root
              site_files theme_files npm_files site_disk_readable)
    as [allMocks E].
  exists allMocks. split; [exact E|].
  apply (theme_files_are_mounted_under_simple site_disk fixtures_dir
           project_root site_files theme_files npm_files allMocks
           "/layout.html" E).
  - intros p ->%list_elem_of_singleton. reflexivity.
  - apply list_elem_of_here.
  - intros H%list_elem_of_singleton. discriminate H.
  - unfold core_paths. cbn [map].
    intros H. repeat (apply elem_of_cons in H as [H|H]; [discriminate H|]).
    now apply elem_of_nil in H.
Defined.

Lemma simple_files_are_keyed_relatively_witness :
  exists allMocks,
    mockSimpleSite site_disk fixtures_dir project_root site_files theme_files
      npm_files = Some allMocks /\
    allMocks !! "simple/index.md" = Some "# Hello".
Proof.
  destruct (mockSimpleSite_defined site_disk fixtures_dir project_root
              site_files theme_files npm_files site_disk_readable)
    as [allMocks E].
  exists allMocks. split; [exact E|].
  apply (simple_files_are_keyed_relatively site_disk fixtures_dir
           project_root site_files theme_files npm_files allMocks
           "simple/index.md" E).
  - intros p ->%list_elem_of_singleton. reflexivity.
  - apply list_elem_of_here.
  - intros H%list_elem_of_singleton. discriminate H.
  - unfold core_paths. cbn [map].
    intros H. repeat (apply elem_of_cons in H as [H|H]; [discriminate H|]).
    now apply elem_of_nil in H.
  - intros H%list_elem_of_singleton. discriminate H.
Defined.

Lemma core_files_keep_their_paths_witness :
  exists allMocks,
    mockSimpleSite site_disk fixtures_dir project_root site_files theme_files
      npm_files = Some allMocks /\
    allMocks !! "/repo/package.json" = Some "{}".
Proof.
  destruct (mockSimpleSite_defined site_disk fixtures_dir project_root
              site_files theme_files npm_files site_disk_readable)
    as [allMocks E].
  exists allMocks. split; [exact E|].
  apply (core_files_keep_their_paths site_disk fixtures_dir project_root
           site_files theme_files npm_files allMocks "/repo/package.json" E).
  unfold core_paths. cbn [map].
  apply list_elem_of_further, list_elem_of_further, list_elem_of_here.
Defined.

Lemma node_modules_key_cuts_to_last_witness :
  node_modules_key "/repo/lib/index.js" = "/repo/lib/index.js" /\
  node_modules_key ("/repo/node_modules/a/" +:+ node_modules +:+ "/b/index.js")
    = node_modules +:+ "/b/index.js".
Proof.
  split.
  - apply (proj1 (node_modules_key_cuts_to_last "" "" "/repo/lib/index.js")).
    reflexivity.
  - apply (proj2 (node_modules_key_cuts_to_last "/repo/node_modules/a/"
                    "/b/index.js" "")); reflexivity.
Defined.

End CoverageExamples.
